(** * F1 dashboard data: the aggregation pipeline of [f1_dashboard_data.py]

    A shallow embedding of [process_f1_data] and of the pandas operations it
    calls (read_csv, merge, to_numeric, dropna, groupby, nunique, mean, sum,
    sort_values, to_csv), followed by the properties of the five output
    tables.

    Numbers are exact rationals ([Qc]): a float64 cell is a rational or NaN,
    and NaN is [None].  Tables are lists of row records, in row order.
    pandas computes in int64 and float64; where a property needs the sums
    and differences of the machine to be the exact ones, it says on which
    columns ([exact_column]), and [Float64] has the sum of a float64 group
    as the machine computes it. *)

From Stdlib Require Import QArith Qcanon Ascii.
From Stdlib Require PrimFloat.
From stdpp Require Import base numbers option list strings sorting gmap.

Local Open Scope Z_scope.

(** ** Cells and numeric coercion *)

(** A cell as [pd.read_csv] leaves it: a value of a numeric column, the text
    of an object column, or a missing value. *)
Inductive cell :=
| Num (q : Qc)
| Str (s : string)
| NaN.

Global Instance cell_eq_dec : EqDecision cell.
Proof. solve_decision. Defined.

(** The number a text parses to, as pandas' numeric parser decides it; [None]
    when the text is not a number. *)
Class NumericParser := parse_number : string → option Qc.

(** [pd.to_numeric(column, errors='coerce')], cell by cell: the result is a
    float64 cell, [None] standing for NaN. *)
Definition to_numeric `{NumericParser} (c : cell) : option Qc :=
  match c with
  | Num q => Some q
  | Str s => parse_number s
  | NaN => None
  end.

(** A float64 cell stored back into a table. *)
Definition of_float (v : option Qc) : cell :=
  match v with
  | Some q => Num q
  | None => NaN
  end.

(** Reading a cell of a column that already is float64.  Text does not occur
    in such a column. *)
Definition float_of (c : cell) : option Qc :=
  match c with
  | Num q => Some q
  | _ => None
  end.

(** ** The five input tables *)

Module Driver.
Record t := mk { driverId : Z; forename : string; surname : string }.
End Driver.

Module Race.
Record t := mk { raceId : Z }.
End Race.

Module Result.
Record t := mk {
  raceId : Z;
  driverId : Z;
  constructorId : Z;
  positionOrder : cell;
  points : cell
}.
End Result.

Module Qualifying.
Record t := mk { raceId : Z; driverId : Z; position : cell }.
End Qualifying.

Module Constructor.
Record t := mk { constructorId : Z; name : string }.
End Constructor.

Global Instance driver_eq_dec : EqDecision Driver.t.
Proof. solve_decision. Defined.
Global Instance race_eq_dec : EqDecision Race.t.
Proof. solve_decision. Defined.
Global Instance result_eq_dec : EqDecision Result.t.
Proof. solve_decision. Defined.
Global Instance qualifying_eq_dec : EqDecision Qualifying.t.
Proof. solve_decision. Defined.
Global Instance constructor_eq_dec : EqDecision Constructor.t.
Proof. solve_decision. Defined.

(** The local variables holding the loaded data frames. *)
Record frames := Frames {
  drivers_df : list Driver.t;
  races_df : list Race.t;
  results_df : list Result.t;
  qualifying_df : list Qualifying.t;
  constructors_df : list Constructor.t
}.

(** An output table: a label column (null when the left join found no
    match) and a value column. *)
Definition stats := list (option string * Qc).

(** ** The pandas operations *)

Section pandas.
Context {A B K : Type} `{EqDecision K}.

(** [pd.merge(l, r, on=key, how='inner')]: every pair of rows with equal
    keys, in the order of the left rows. *)
Definition merge_inner (kl : A → K) (kr : B → K)
    (l : list A) (r : list B) : list (A * B) :=
  a ← l; (λ b, (a, b)) <$> filter (λ b, kr b = kl a) r.

(** [pd.merge(l, r, on=key, how='left')]: as above, and a left row without
    a match is kept once with nulls for the right columns. *)
Definition merge_left (kl : A → K) (kr : B → K)
    (l : list A) (r : list B) : list (A * option B) :=
  a ← l;
  match filter (λ b, kr b = kl a) r with
  | [] => [(a, None)]
  | bs => (λ b, (a, Some b)) <$> bs
  end.

(** The group keys of [df.groupby(key)]: the distinct non-null keys, in
    ascending order. *)
Definition group_keys (R : relation K) `{!RelDecision R}
    (ks : list (option K)) : list K :=
  merge_sort R (remove_dups (omap id ks)).

(** [df.groupby(key)[col].agg().reset_index()]: one row per group key with
    the reduction of the group's rows; rows with a null key are in no
    group. *)
Definition groupby (R : relation K) `{!RelDecision R}
    (key : A → option K) (agg : list A → B) (df : list A) : list (K * B) :=
  (λ k, (k, agg (filter (λ a, key a = Some k) df))) <$>
  group_keys R (key <$> df).
End pandas.

(** [Series.sum()], which skips NaN; the sum of no value is 0. *)
Definition sum_skipna (col : list (option Qc)) : Qc :=
  foldr Qcplus (Q2Qc 0) (omap id col).

(** [Series.mean()] of a column without NaN. *)
Definition mean (col : list Qc) : Qc :=
  (foldr Qcplus (Q2Qc 0) col / Qc_of_Z (Z.of_nat (length col)))%Qc.

(** [Series.nunique()] of an integer column. *)
Definition nunique (col : list Z) : nat := length (remove_dups col).

(** The order of [df.sort_values(by=value)] on the value column of an output
    table, ascending and descending. *)
Definition value_asc : relation (option string * Qc) := λ a b, (a.2 ≤ b.2)%Qc.
Definition value_desc : relation (option string * Qc) := λ a b, (b.2 ≤ a.2)%Qc.

Global Instance value_asc_dec : RelDecision value_asc :=
  λ a b, decide (a.2 ≤ b.2)%Qc.
Global Instance value_desc_dec : RelDecision value_desc :=
  λ a b, decide (b.2 ≤ a.2)%Qc.

(** [df.sort_values(by=value, ascending=...)].  pandas leaves the order of
    rows with equal values to its sorting algorithm, and so does this merge
    sort; no property below depends on it. *)
Definition sort_values (ascending : bool) (df : stats) : stats :=
  if ascending then merge_sort value_asc df else merge_sort value_desc df.

(** [forename + ' ' + surname], null when the driver is. *)
Definition driverName (d : option Driver.t) : option string :=
  (λ d, Driver.forename d +:+ " " +:+ Driver.surname d) <$> d.

(** ** The aggregation stages *)

Section stages.
Context `{NumericParser}.

(** *** 1. Average positions gained (lines 28-62) *)

(** A row of [merged_positions] after the coercion of both positions. *)
Record merged_row := MergedRow {
  m_raceId : Z;
  m_driverId : Z;
  qualifyingPosition : option Qc;
  raceFinishPosition : option Qc
}.

(** A row of [merged_positions] after [dropna], with its
    [positionsGained]. *)
Record gained_row := GainedRow {
  g_raceId : Z;
  g_driverId : Z;
  g_qualifyingPosition : Qc;
  g_raceFinishPosition : Qc;
  positionsGained : Qc
}.

(** Lines 32-33: the columns of the two tables that enter the join, the
    position column renamed. *)
Definition qualifying_positions (qualifying : list Qualifying.t)
    : list (Z * Z * cell) :=
  (λ q, (Qualifying.raceId q, Qualifying.driverId q, Qualifying.position q))
  <$> qualifying.

Definition race_finish_positions (results : list Result.t)
    : list (Z * Z * cell) :=
  (λ r, (Result.raceId r, Result.driverId r, Result.positionOrder r))
  <$> results.

(** Lines 37-42: the inner join on (raceId, driverId), then the coercion of
    both positions. *)
Definition merged_positions
    (qualifying : list Qualifying.t) (results : list Result.t)
    : list merged_row :=
  (λ qr : (Z * Z * cell) * (Z * Z * cell),
     MergedRow qr.1.1.1 qr.1.1.2 (to_numeric qr.1.2) (to_numeric qr.2.2)) <$>
  merge_inner fst fst
    (qualifying_positions qualifying) (race_finish_positions results).

(** Lines 45-50: [dropna] on both positions, then
    qualifyingPosition - raceFinishPosition. *)
Definition dropna_gained (m : merged_row) : option gained_row :=
  qp ← qualifyingPosition m;
  rp ← raceFinishPosition m;
  Some (GainedRow (m_raceId m) (m_driverId m) qp rp (qp - rp)%Qc).

(** Lines 53-57: the left join with the drivers and the driver name. *)
Definition positions_gained_df (fr : frames)
    : list (gained_row * option string) :=
  (λ gd, (gd.1, driverName gd.2)) <$>
  merge_left g_driverId Driver.driverId
    (omap dropna_gained (merged_positions (qualifying_df fr) (results_df fr)))
    (drivers_df fr).

(** Lines 60-62: the mean per driver name, sorted descending. *)
Definition average_positions_gained (fr : frames) : stats :=
  sort_values false
    ((λ kv, (Some kv.1, kv.2)) <$>
     groupby String.le snd (λ g, mean (positionsGained ∘ fst <$> g))
       (positions_gained_df fr)).

(** *** The label join shared by stages 2-5 *)

(** Lines 73-76 and alike: the left join of a per-driver table with the
    drivers, keeping the name and the value. *)
Definition with_driver_name (t : list (Z * Qc)) (drivers : list Driver.t)
    : stats :=
  (λ rd : (Z * Qc) * option Driver.t, (driverName rd.2, rd.1.2)) <$>
  merge_left fst Driver.driverId t drivers.

(** Lines 118-121: the same with the constructors. *)
Definition with_team_name (t : list (Z * Qc))
    (constructors : list Constructor.t) : stats :=
  (λ rc : (Z * Qc) * option Constructor.t,
     (Constructor.name <$> rc.2, rc.1.2)) <$>
  merge_left fst Constructor.constructorId t constructors.

(** *** 2. Total career races (lines 66-76) *)

Definition total_career_races (results : list Result.t) : list (Z * Qc) :=
  groupby Z.le (Some ∘ Result.driverId)
    (λ g, Qc_of_Z (Z.of_nat (nunique (Result.raceId <$> g)))) results.

Definition total_career_races_df (fr : frames) : stats :=
  sort_values false
    (with_driver_name (total_career_races (results_df fr)) (drivers_df fr)).

(** *** 3. Average career finish position (lines 79-93) *)

(** Line 82: the rows whose positionOrder is numeric. *)
Definition results_df_clean (results : list Result.t) : list Result.t :=
  filter (λ r, is_Some (to_numeric (Result.positionOrder r))) results.

(** Line 83: the column converted, in the copy. *)
Definition convert_positionOrder (r : Result.t) : Result.t :=
  Result.mk (Result.raceId r) (Result.driverId r) (Result.constructorId r)
    (of_float (to_numeric (Result.positionOrder r))) (Result.points r).

Definition avg_finish_position (results : list Result.t) : list (Z * Qc) :=
  groupby Z.le (Some ∘ Result.driverId)
    (λ g, mean (omap (float_of ∘ Result.positionOrder) g))
    (convert_positionOrder <$> results_df_clean results).

Definition avg_finish_position_df (fr : frames) : stats :=
  sort_values true
    (with_driver_name (avg_finish_position (results_df fr)) (drivers_df fr)).

(** *** 4. Total career points of the drivers (lines 96-107) *)

(** Lines 99 and 113: [results_df['points'] = pd.to_numeric(...)], an
    assignment into the loaded table. *)
Definition coerce_points (r : Result.t) : Result.t :=
  Result.mk (Result.raceId r) (Result.driverId r) (Result.constructorId r)
    (Result.positionOrder r) (of_float (to_numeric (Result.points r))).

Definition assign_points (fr : frames) : frames :=
  Frames (drivers_df fr) (races_df fr) (coerce_points <$> results_df fr)
    (qualifying_df fr) (constructors_df fr).

Definition total_driver_points (results : list Result.t) : list (Z * Qc) :=
  groupby Z.le (Some ∘ Result.driverId)
    (λ g, sum_skipna (float_of ∘ Result.points <$> g)) results.

Definition total_driver_points_df (fr : frames) : stats :=
  sort_values false
    (with_driver_name (total_driver_points (results_df fr)) (drivers_df fr)).

(** *** 5. Total points of the teams (lines 110-121) *)

Definition total_team_points (results : list Result.t) : list (Z * Qc) :=
  groupby Z.le (Some ∘ Result.constructorId)
    (λ g, sum_skipna (float_of ∘ Result.points <$> g)) results.

Definition total_team_points_df (fr : frames) : stats :=
  sort_values false
    (with_team_name (total_team_points (results_df fr)) (constructors_df fr)).

(** *** Lines 28-122 in order *)

Record outputs := Outputs {
  out_average_positions_gained : stats;
  out_total_career_races : stats;
  out_avg_finish_position : stats;
  out_total_driver_points : stats;
  out_total_team_points : stats
}.

(** The five stages in source order, threading the frames: stages 4 and 5
    each assign the points column before reading it. *)
Definition aggregate (fr : frames) : outputs * frames :=
  let t1 := average_positions_gained fr in
  let t2 := total_career_races_df fr in
  let t3 := avg_finish_position_df fr in
  let fr := assign_points fr in
  let t4 := total_driver_points_df fr in
  let fr := assign_points fr in
  let t5 := total_team_points_df fr in
  (Outputs t1 t2 t3 t4 t5, fr).
End stages.

(** ** The files and the console *)

(** An input directory: the CSV files of the five names it may hold, each
    with the columns the pipeline selects. *)
Record directory := Directory {
  drivers_csv : option (list Driver.t);
  races_csv : option (list Race.t);
  results_csv : option (list Result.t);
  qualifying_csv : option (list Qualifying.t);
  constructors_csv : option (list Constructor.t)
}.

(** A file written by [to_csv(path, index=False)]: the header and the rows. *)
Record csv_file := CsvFile { header : string * string; body : stats }.

(** What a run can read and change: the input directories by the path given
    as [data_dir], the files written by path, and the lines printed. *)
Record world := World {
  dirs : gmap string directory;
  written : gmap string csv_file;
  stdout : list string
}.

Inductive exn :=
| FileNotFoundError (filename : string).

(** A computation that reads and changes the world and either returns or
    raises. *)
Definition M (A : Type) : Type := world → (exn + A) * world.

Definition ret {A} (a : A) : M A := λ w, (inr a, w).

Definition bind {A B} (m : M A) (f : A → M B) : M B :=
  λ w, match m w with
       | (inl e, w') => (inl e, w')
       | (inr a, w') => f a w'
       end.

Definition raise {A} (e : exn) : M A := λ w, (inl e, w).

(** [try: body except exn as e: handler e] *)
Definition try_except {A} (body : M A) (handler : exn → M A) : M A :=
  λ w, match body w with
       | (inl e, w') => handler e w'
       | (inr a, w') => (inr a, w')
       end.

Global Instance M_ret : MRet M := @ret.
Global Instance M_bind : MBind M := λ A B f m, bind m f.

Definition ends_with_slash (s : string) : bool :=
  match last (String.list_ascii_of_string s) with
  | Some c => bool_decide (c = "/"%char)
  | None => false
  end.

Definition starts_with_slash (s : string) : bool :=
  match s with
  | String c _ => bool_decide (c = "/"%char)
  | EmptyString => false
  end.

(** [os.path.join(a, b)] on a POSIX system. *)
Definition path_join (a b : string) : string :=
  if starts_with_slash b then b
  else if bool_decide (a = EmptyString) then b
  else if ends_with_slash a then a +:+ b
  else a +:+ "/" +:+ b.

(** [print(line)] *)
Definition print (line : string) : M unit :=
  λ w, (inr (), World (dirs w) (written w) (stdout w ++ [line])).

(** [pd.read_csv(os.path.join(data_dir, name))] for the table [table] of the
    directory; a file that is not there raises [FileNotFoundError] with the
    path as its [filename]. *)
Definition read_csv {T} (table : directory → option T)
    (data_dir name : string) : M T :=
  λ w, match dirs w !! data_dir ≫= table with
       | Some t => ret t w
       | None => raise (FileNotFoundError (path_join data_dir name)) w
       end.

(** [df.to_csv(path, index=False)]: the file is created or overwritten. *)
Definition to_csv (df : stats) (columns : string * string) (path : string)
    : M unit :=
  λ w, (inr (), World (dirs w) (<[path := CsvFile columns df]> (written w))
                  (stdout w)).

(** ** The entry point *)

Section process.
Context `{NumericParser}.

(** Lines 16-21, the body of the [try]. *)
Definition load (data_dir : string) : M frames :=
  drivers_df ← read_csv drivers_csv data_dir "drivers.csv";
  races_df ← read_csv races_csv data_dir "races.csv";
  results_df ← read_csv results_csv data_dir "results.csv";
  qualifying_df ← read_csv qualifying_csv data_dir "qualifying.csv";
  constructors_df ← read_csv constructors_csv data_dir "constructors.csv";
  print "All raw data loaded successfully.";;
  ret (Frames drivers_df races_df results_df qualifying_df constructors_df).

(** Lines 23-26, the handler; [None] is its [return]. *)
Definition missing_file (data_dir : string) (e : exn) : M (option frames) :=
  match e with
  | FileNotFoundError filename =>
      print ("Error: One or more required CSV files not found. Make sure '"
                +:+ data_dir +:+ "' exists and contains all files.");;
      print ("Missing file: " +:+ filename);;
      ret None
  end.

Definition output_dir : string := "processed_data".

(** Lines 28-141, once the tables are loaded.  Line 127 creates the output
    directory when it is not there; the files written are kept by path, so
    it leaves no trace here. *)
Definition process_loaded (fr : frames) : M unit :=
  print "Calculating Average Positions Gained...";;
  let average_positions_gained := average_positions_gained fr in
  print "Average Positions Gained calculated.";;
  print "Calculating Total Career Races...";;
  let total_career_races_df := total_career_races_df fr in
  print "Total Career Races calculated.";;
  print "Calculating Average Career Finish Position...";;
  let avg_finish_position_df := avg_finish_position_df fr in
  print "Average Career Finish Position calculated.";;
  print "Calculating Total Career Points for Drivers...";;
  let fr := assign_points fr in
  let total_driver_points_df := total_driver_points_df fr in
  print "Total Career Points for Drivers calculated.";;
  print "Calculating Most Points Scored by F1 Teams...";;
  let fr := assign_points fr in
  let total_team_points_df := total_team_points_df fr in
  print "Most Points Scored by F1 Teams calculated.";;
  to_csv average_positions_gained ("driverName", "AveragePositionsGained")
       (path_join output_dir "average_positions_gained.csv");;
  to_csv total_career_races_df ("driverName", "TotalCareerRaces")
       (path_join output_dir "total_career_races.csv");;
  to_csv avg_finish_position_df ("driverName", "AverageFinishPosition")
       (path_join output_dir "average_career_finish_position.csv");;
  to_csv total_driver_points_df ("driverName", "TotalCareerPoints")
       (path_join output_dir "total_career_points_drivers.csv");;
  to_csv total_team_points_df ("TeamName", "TotalTeamPoints")
       (path_join output_dir "total_career_points_teams.csv");;
  print EmptyString;;
  print ("Processed data saved to '" +:+ output_dir +:+ "' directory:");;
  print "- average_positions_gained.csv";;
  print "- total_career_races.csv";;
  print "- average_career_finish_position.csv";;
  print "- total_career_points_drivers.csv";;
  print "- total_career_points_teams.csv";;
  print EmptyString;;
  print "Data processing complete. You can now import these CSVs into Power BI.".

(** [process_f1_data(data_dir)] *)
Definition process_f1_data (data_dir : string) : M unit :=
  print ("Loading data from " +:+ data_dir +:+ "...");;
  loaded ← try_except
                 (fr ← load data_dir; ret (Some fr))
                 (missing_file data_dir);
  match loaded with
  | None => ret ()
  | Some fr => process_loaded fr
  end.
End process.

(** ** A parser of plain decimal literals *)

Definition digit_of (a : ascii) : option Z :=
  let n := Z.of_N (Ascii.N_of_ascii a) in
  if bool_decide (48 ≤ n ≤ 57) then Some (n - 48) else None.

Fixpoint digits (s : string) : option (list Z) :=
  match s with
  | EmptyString => Some []
  | String a s' => d ← digit_of a; ds ← digits s'; Some (d :: ds)
  end.

Definition number_of (ds : list Z) : Z := foldl (λ acc d, 10 * acc + d) 0 ds.

(** The text before the first dot, and the text after it when there is
    one. *)
Fixpoint split_at_dot (s : string) : string * option string :=
  match s with
  | EmptyString => (EmptyString, None)
  | String a s' =>
      if bool_decide (a = "."%char) then (EmptyString, Some s')
      else let '(i, f) := split_at_dot s' in (String a i, f)
  end.

Definition parse_unsigned (s : string) : option Qc :=
  let '(int_part, frac_part) := split_at_dot s in
  i ← digits int_part;
  match frac_part with
  | None => if bool_decide (i = []) then None else Some (Qc_of_Z (number_of i))
  | Some f =>
      fd ← digits f;
      if bool_decide (i = [] ∧ fd = []) then None
      else Some (Q2Qc (number_of (i ++ fd)
                       # Z.to_pos (10 ^ Z.of_nat (length fd))))
  end.

(** Digits with an optional sign and an optional fraction: 7, -2, 0.5.
    Any other text, such as R, D, W or \N, is not a number. *)
Definition decimal_parser : NumericParser :=
  λ s, match s with
       | String "-" s' => Qcopp <$> parse_unsigned s'
       | String "+" s' => parse_unsigned s'
       | _ => parse_unsigned s
       end.

(** ** What one key's output is, row by row

    The values the claims speak of, written from the rows of one driver or
    one constructor alone. *)

(** The labels the left join attaches to a driver id: the names of the rows
    of the driver table with that id, or one null when there is none. *)
Definition driver_labels (drivers : list Driver.t) (d : Z)
    : list (option string) :=
  match filter (λ x, Driver.driverId x = d) drivers with
  | [] => [None]
  | ds => (λ x, driverName (Some x)) <$> ds
  end.

Definition team_labels (constructors : list Constructor.t) (c : Z)
    : list (option string) :=
  match filter (λ x, Constructor.constructorId x = c) constructors with
  | [] => [None]
  | cs => (λ x, Some (Constructor.name x)) <$> cs
  end.

(** The raceId and driverId columns of a result row. *)
Definition result_key (r : Result.t) : Z * Z :=
  (Result.raceId r, Result.driverId r).

Definition rows_of_driver (results : list Result.t) (d : Z) : list Result.t :=
  filter (λ r, Result.driverId r = d) results.

Definition rows_of_team (results : list Result.t) (c : Z) : list Result.t :=
  filter (λ r, Result.constructorId r = c) results.

(** The distinct race ids among the result rows of a driver, as a set. *)
Definition races_of_driver (results : list Result.t) (d : Z) : gset Z :=
  list_to_set (Result.raceId <$> rows_of_driver results d).

(** The numeric finish positions among the result rows of a driver. *)
Definition numeric_finishes `{NumericParser}
    (results : list Result.t) (d : Z) : list Qc :=
  omap (λ r, to_numeric (Result.positionOrder r)) (rows_of_driver results d).

(** The numeric points among the given result rows. *)
Definition numeric_points `{NumericParser} (rows : list Result.t) : list Qc :=
  omap (λ r, to_numeric (Result.points r)) rows.

Definition total (col : list Qc) : Qc := foldr Qcplus (Q2Qc 0) col.

(** The paths of the input files that are not there, in the order the
    loader reads them. *)
Definition missing_files (data_dir : string) (w : world) : list string :=
  let absent {T} (table : directory → option T) (name : string) :=
    match dirs w !! data_dir ≫= table with
    | Some _ => []
    | None => [path_join data_dir name]
    end in
  absent drivers_csv "drivers.csv" ++ absent races_csv "races.csv" ++
  absent results_csv "results.csv" ++ absent qualifying_csv "qualifying.csv" ++
  absent constructors_csv "constructors.csv".

(** ** The fixtures of the scenarios *)

(** The single-driver scenario: one driver, one qualifying row, one result
    row, one constructor, and any races table. *)
Definition single_driver_frames (races : list Race.t) : frames :=
  Frames
    [Driver.mk 1 "Max" "Verstappen"]
    races
    [Result.mk 10 1 5 (Num (Qc_of_Z 3)) (Num (Qc_of_Z 15))]
    [Qualifying.mk 10 1 (Num (Qc_of_Z 1))]
    [Constructor.mk 5 "Red Bull"].

(** A directory holding the five tables. *)
Definition directory_of (fr : frames) : directory :=
  Directory (Some (drivers_df fr)) (Some (races_df fr)) (Some (results_df fr))
    (Some (qualifying_df fr)) (Some (constructors_df fr)).

Definition single_driver_dir (races : list Race.t) : directory :=
  directory_of (single_driver_frames races).

Definition single_driver_world (races : list Race.t) : world :=
  World {["data" := single_driver_dir races]} ∅ [].

(** The same directory after qualifying.csv was deleted. *)
Definition without_qualifying (dir : directory) : directory :=
  Directory (drivers_csv dir) (races_csv dir) (results_csv dir) None
    (constructors_csv dir).

Definition missing_qualifying_world : world :=
  World {["data" := without_qualifying (single_driver_dir [])]} ∅ [].

(** A driver id of the results and the qualifying that the driver table
    does not hold. *)
Definition unmatched_driver_frames : frames :=
  Frames []
    []
    [Result.mk 10 1 5 (Num (Qc_of_Z 3)) (Num (Qc_of_Z 15))]
    [Qualifying.mk 10 1 (Num (Qc_of_Z 1))]
    [Constructor.mk 5 "Red Bull"].

(** A result row whose points are a retirement code. *)
Definition text_points_frames : frames :=
  Frames [Driver.mk 1 "Max" "Verstappen"]
    []
    [Result.mk 10 1 5 (Num (Qc_of_Z 3)) (Str "R")]
    [Qualifying.mk 10 1 (Num (Qc_of_Z 1))]
    [Constructor.mk 5 "Red Bull"].

(** One driver with the finish positions 1, 2 and the retirement code R, as
    the text cells of a column that is not all numeric. *)
Definition finish_codes_frames : frames :=
  Frames [Driver.mk 1 "Max" "Verstappen"]
    []
    [Result.mk 10 1 5 (Str "1") (Num (Qc_of_Z 25));
     Result.mk 11 1 5 (Str "2") (Num (Qc_of_Z 18));
     Result.mk 12 1 5 (Str "R") (Num (Qc_of_Z 0))]
    []
    [Constructor.mk 5 "Red Bull"].

(** Two drivers of the same name, and a driver and a constructor whose
    points are all retirement codes. *)
Definition namesake_frames : frames :=
  Frames
    [Driver.mk 1 "Graham" "Hill"; Driver.mk 2 "Graham" "Hill"]
    []
    [Result.mk 10 1 5 (Num (Qc_of_Z 1)) (Num (Qc_of_Z 9));
     Result.mk 10 2 6 (Num (Qc_of_Z 4)) (Num (Qc_of_Z 3));
     Result.mk 11 2 6 (Num (Qc_of_Z 2)) (Num (Qc_of_Z 5));
     Result.mk 11 3 7 (Str "R") (Str "R")]
    [Qualifying.mk 10 1 (Num (Qc_of_Z 2)); Qualifying.mk 10 2 (Num (Qc_of_Z 1))]
    [Constructor.mk 5 "Lotus"; Constructor.mk 6 "BRM";
     Constructor.mk 7 "Brabham"].

(** One driver with two result rows of the same race and a third row, two of
    the three without a numeric finish position. *)
Definition repeated_race_frames : frames :=
  Frames [Driver.mk 1 "Max" "Verstappen"]
    []
    [Result.mk 10 1 5 (Num (Qc_of_Z 1)) (Num (Qc_of_Z 25));
     Result.mk 10 1 5 (Str "R") (Num (Qc_of_Z 0));
     Result.mk 11 1 5 (Str "W") (Num (Qc_of_Z 0))]
    []
    [Constructor.mk 5 "Red Bull"].

(** ** The files of a complete run *)

(** The five files a complete run leaves in the output directory. *)
Definition output_files (out : outputs) : list (string * csv_file) :=
  [("processed_data/average_positions_gained.csv",
    CsvFile ("driverName", "AveragePositionsGained")
      (out_average_positions_gained out));
   ("processed_data/total_career_races.csv",
    CsvFile ("driverName", "TotalCareerRaces") (out_total_career_races out));
   ("processed_data/average_career_finish_position.csv",
    CsvFile ("driverName", "AverageFinishPosition")
      (out_avg_finish_position out));
   ("processed_data/total_career_points_drivers.csv",
    CsvFile ("driverName", "TotalCareerPoints") (out_total_driver_points out));
   ("processed_data/total_career_points_teams.csv",
    CsvFile ("TeamName", "TotalTeamPoints") (out_total_team_points out))].

(** The single-driver directory without races.csv. *)
Definition missing_races_world : world :=
  World
    {["data" := Directory (drivers_csv (single_driver_dir [])) None
                  (results_csv (single_driver_dir []))
                  (qualifying_csv (single_driver_dir []))
                  (constructors_csv (single_driver_dir []))]} ∅ [].

(** A driver table that lists driver id 1 twice, under two spellings. *)
Definition duplicate_driver_frames : frames :=
  Frames
    [Driver.mk 1 "Max" "Verstappen"; Driver.mk 1 "M." "Verstappen"]
    []
    [Result.mk 10 1 5 (Num (Qc_of_Z 1)) (Num (Qc_of_Z 25));
     Result.mk 11 1 5 (Num (Qc_of_Z 2)) (Num (Qc_of_Z 18))]
    []
    [Constructor.mk 5 "Red Bull"].

(** ** Columns on which the machine arithmetic is exact *)

Definition abs_sum (zs : list Z) : Z := foldr (λ z s, Z.abs z + s) 0 zs.

(** A column of whole numbers whose absolute values add up to at most 2^53.
    On such a column no int64 sum or difference wraps and no float64 sum or
    difference rounds, in any row order, so the machine values are the
    exact ones. *)
Definition exact_column (col : list Qc) : Prop :=
  ∃ zs : list Z, col = Qc_of_Z <$> zs ∧ abs_sum zs ≤ 2 ^ 53.

(** A whole number of absolute value at most [bound]. *)
Definition whole_within (bound : Z) (q : Qc) : Prop :=
  ∃ z : Z, q = Qc_of_Z z ∧ Z.abs z ≤ bound.




(** ** The sum of a float64 group, as the machine computes it *)

Module Float64.
Import PrimFloat.






End Float64.

(** * Properties *)

(** ** The pandas operations *)

Section pandas_lemmas.
Context {A B K : Type} `{EqDecision K}.
Context (R : relation K) `{!RelDecision R, !PartialOrder R, !Total R}.
Implicit Types (key : A → option K) (agg : list A → B) (df : list A).

Lemma elem_of_group_keys (ks : list (option K)) k :
  k ∈ group_keys R ks ↔ Some k ∈ ks.
Proof.
  unfold group_keys. rewrite merge_sort_Permutation, elem_of_remove_dups.
  rewrite list_elem_of_omap. split.
  - intros ([k'|] & Hin & Hk); simplify_eq/=. done.
  - intros Hin. exists (Some k). done.
Qed.

Lemma NoDup_group_keys (ks : list (option K)) : NoDup (group_keys R ks).
Proof.
  unfold group_keys. rewrite merge_sort_Permutation. apply NoDup_remove_dups.
Qed.


Lemma elem_of_groupby key agg df k v :
  (k, v) ∈ groupby R key agg df ↔
  Some k ∈ key <$> df ∧ v = agg (filter (λ a, key a = Some k) df).
Proof.
  unfold groupby. rewrite list_elem_of_fmap. split.
  - intros (k' & Heq & Hin). simplify_eq. by apply elem_of_group_keys in Hin.
  - intros [Hin ->]. exists k. by rewrite elem_of_group_keys.
Qed.

Lemma groupby_keys key agg df :
  (groupby R key agg df).*1 = group_keys R (key <$> df).
Proof.
  unfold groupby. rewrite <-list_fmap_compose. apply list_fmap_id.
Qed.

Lemma NoDup_groupby_keys key agg df : NoDup (groupby R key agg df).*1.
Proof. rewrite groupby_keys. apply NoDup_group_keys. Qed.


Lemma filter_fmap_list {C D} (f : C → D) (P : D → Prop)
    `{∀ x, Decision (P x)} (l : list C) :
  filter P (f <$> l) = f <$> filter (P ∘ f) l.
Proof.
  induction l as [|c l IH]; [done|].
  rewrite fmap_cons, !filter_cons; simpl.
  case_decide; [rewrite fmap_cons|]; by rewrite IH.
Qed.

Lemma groupby_fmap {A'} (f : A' → A) key (key' : A' → option K)
    agg (agg' : list A' → B) (df : list A') :
  (∀ a, key (f a) = key' a) →
  (∀ l, agg (f <$> l) = agg' l) →
  groupby R key agg (f <$> df) = groupby R key' agg' df.
Proof.
  intros Hkey Hagg. unfold groupby.
  rewrite <-list_fmap_compose.
  rewrite (list_fmap_ext (key ∘ f) key' df) by (intros; apply Hkey).
  apply list_fmap_ext. intros _ k _. f_equal.
  rewrite filter_fmap_list, Hagg. f_equal.
  apply list_filter_iff. intros a; simpl. by rewrite Hkey.
Qed.

Lemma groupby_ext key agg agg' df :
  (∀ l, agg l = agg' l) → groupby R key agg df = groupby R key agg' df.
Proof. intros E. unfold groupby. apply list_fmap_ext. intros _ k _. by rewrite E. Qed.
End pandas_lemmas.

Section merge_lemmas.
Context {A B K : Type} `{EqDecision K}.
Implicit Types (kl : A → K) (kr : B → K) (l : list A) (r : list B).

Lemma fmap_bind_list {C D E} (f : D → E) (g : C → list D) (l : list C) :
  f <$> (l ≫= g) = l ≫= (λ c, f <$> g c).
Proof.
  induction l as [|c l IH]; [done|].
  by rewrite !bind_cons, fmap_app, IH.
Qed.


Lemma elem_of_merge_inner kl kr l r a b :
  (a, b) ∈ merge_inner kl kr l r ↔ a ∈ l ∧ b ∈ r ∧ kr b = kl a.
Proof.
  unfold merge_inner. rewrite list_elem_of_bind. split.
  - intros (a' & Hin & Ha').
    apply list_elem_of_fmap in Hin as (b' & [= -> ->] & Hb').
    apply list_elem_of_filter in Hb' as [? ?]. done.
  - intros (Ha & Hb & Hk). exists a. split; [|done].
    apply list_elem_of_fmap. exists b. split; [done|].
    by apply list_elem_of_filter.
Qed.


Lemma elem_of_merge_left kl kr l r a ob :
  (a, ob) ∈ merge_left kl kr l r ↔
  a ∈ l ∧
  match ob with
  | Some b => b ∈ r ∧ kr b = kl a
  | None => ∀ b, b ∈ r → kr b ≠ kl a
  end.
Proof.
  unfold merge_left. rewrite list_elem_of_bind. split.
  - intros (a' & Hin & Ha').
    destruct (filter (λ b, kr b = kl a') r) as [|b0 bs] eqn:Hf.
    + apply list_elem_of_singleton in Hin as [= -> ->]. split; [done|].
      intros b Hb Hk.
      assert (b ∈ filter (λ b, kr b = kl a') r) as Hin
        by (by apply list_elem_of_filter).
      rewrite Hf in Hin. by apply not_elem_of_nil in Hin.
    + apply list_elem_of_fmap in Hin as (b & [= -> ->] & Hb).
      split; [done|]. rewrite <-Hf in Hb.
      apply list_elem_of_filter in Hb as [? ?]. done.
  - intros [Ha Hob]. exists a. split; [|done].
    destruct ob as [b|].
    + destruct Hob as [Hb Hk].
      assert (b ∈ filter (λ b, kr b = kl a) r) as Hin
        by (by apply list_elem_of_filter).
      destruct (filter (λ b, kr b = kl a) r) as [|b0 bs];
        [by apply not_elem_of_nil in Hin|].
      apply list_elem_of_fmap. by exists b.
    + destruct (filter (λ b, kr b = kl a) r) as [|b0 bs] eqn:Hf;
        [by apply list_elem_of_singleton|].
      exfalso. assert (b0 ∈ filter (λ b, kr b = kl a) r) as Hin
        by (rewrite Hf; left).
      apply list_elem_of_filter in Hin as [? ?]. by eapply Hob.
Qed.

Lemma merge_left_total kl kr l r a :
  a ∈ l → ∃ ob, (a, ob) ∈ merge_left kl kr l r.
Proof.
  intros Ha.
  destruct (filter (λ b, kr b = kl a) r) as [|b0 bs] eqn:Hf.
  - exists None. apply elem_of_merge_left. split; [done|].
    intros b Hb Hk.
    assert (b ∈ filter (λ b, kr b = kl a) r) as Hin
      by (by apply list_elem_of_filter).
    rewrite Hf in Hin. by apply not_elem_of_nil in Hin.
  - exists (Some b0). apply elem_of_merge_left. split; [done|].
    assert (b0 ∈ filter (λ b, kr b = kl a) r) as Hin by (rewrite Hf; left).
    by apply list_elem_of_filter in Hin as [? ?].
Qed.

End merge_lemmas.

(** ** The reductions do not depend on the row order *)

Lemma total_Permutation (l l' : list Qc) : l ≡ₚ l' → total l = total l'.
Proof.
  intros Hp. unfold total. apply (foldr_permutation (=) Qcplus (Q2Qc 0)); [|done].
  intros j1 a1 j2 a2 b _ _ _. by rewrite !Qcplus_assoc, (Qcplus_comm a1 a2).
Qed.

Lemma sum_skipna_total (col : list (option Qc)) :
  sum_skipna col = total (omap id col).
Proof. done. Qed.


Lemma mean_total (col : list Qc) :
  mean col = (total col / Qc_of_Z (Z.of_nat (length col)))%Qc.
Proof. done. Qed.




(** [nunique] counts the elements of the set of values. *)
Lemma nunique_size (l : list Z) : nunique l = size (list_to_set l : gset Z).
Proof.
  unfold nunique.
  rewrite <-(size_list_to_set (C := gset Z) (remove_dups l))
    by apply NoDup_remove_dups.
  f_equal. apply set_eq. intros x.
  by rewrite !elem_of_list_to_set, elem_of_remove_dups.
Qed.

Lemma sort_values_Permutation asc (df : stats) : sort_values asc df ≡ₚ df.
Proof. destruct asc; apply merge_sort_Permutation. Qed.

Lemma elem_of_sort_values asc (df : stats) x : x ∈ sort_values asc df ↔ x ∈ df.
Proof. by rewrite sort_values_Permutation. Qed.

(** ** The stages, key by key *)

Section stage_lemmas.
Context `{NumericParser}.
Implicit Types (results : list Result.t) (drivers : list Driver.t).

Lemma to_numeric_of_float (c : cell) :
  float_of (of_float (to_numeric c)) = to_numeric c.
Proof. by destruct (to_numeric c). Qed.

Lemma to_numeric_idemp (c : cell) :
  to_numeric (of_float (to_numeric c)) = to_numeric c.
Proof. by destruct (to_numeric c). Qed.

Lemma coerce_points_idemp (r : Result.t) :
  coerce_points (coerce_points r) = coerce_points r.
Proof. unfold coerce_points; simpl. by rewrite to_numeric_idemp. Qed.

Lemma assign_points_idemp (fr : frames) :
  assign_points (assign_points fr) = assign_points fr.
Proof.
  unfold assign_points; simpl. f_equal.
  rewrite <-list_fmap_compose. apply list_fmap_ext.
  intros _ r _. apply coerce_points_idemp.
Qed.

Lemma elem_of_Some_key {T} (f : T → Z) (l : list T) (k : Z) :
  Some k ∈ Some ∘ f <$> l ↔ k ∈ f <$> l.
Proof.
  rewrite !list_elem_of_fmap. split.
  - intros (x & [= ->] & Hx). eauto.
  - intros (x & -> & Hx). eauto.
Qed.

Lemma group_of_driver results d :
  filter (λ r, (Some ∘ Result.driverId) r = Some d) results
  = rows_of_driver results d.
Proof. apply list_filter_iff. intros r; simpl. naive_solver. Qed.

Lemma group_of_team results c :
  filter (λ r, (Some ∘ Result.constructorId) r = Some c) results
  = rows_of_team results c.
Proof. apply list_filter_iff. intros r; simpl. naive_solver. Qed.

Lemma rows_of_driver_coerced results d :
  rows_of_driver (coerce_points <$> results) d
  = coerce_points <$> rows_of_driver results d.
Proof.
  unfold rows_of_driver. induction results as [|r results IH]; [done|].
  rewrite fmap_cons, !filter_cons; simpl.
  case_decide; [rewrite fmap_cons|]; by rewrite IH.
Qed.

Lemma rows_of_team_coerced results c :
  rows_of_team (coerce_points <$> results) c
  = coerce_points <$> rows_of_team results c.
Proof.
  unfold rows_of_team. induction results as [|r results IH]; [done|].
  rewrite fmap_cons, !filter_cons; simpl.
  case_decide; [rewrite fmap_cons|]; by rewrite IH.
Qed.

(** The sum pandas takes over the assigned points column is the total of the
    numeric points of the rows as loaded. *)
Lemma sum_coerced_points (rows : list Result.t) :
  sum_skipna (float_of ∘ Result.points <$> (coerce_points <$> rows))
  = total (numeric_points rows).
Proof.
  rewrite sum_skipna_total. f_equal. unfold numeric_points.
  induction rows as [|r rows IH]; [done|].
  rewrite !fmap_cons; simpl. rewrite to_numeric_of_float.
  destruct (to_numeric (Result.points r)); simpl; [f_equal|]; exact IH.
Qed.

(** The group of a driver in the cleaned copy holds the numeric finish
    positions of the driver's rows. *)
Lemma clean_group results d :
  omap (float_of ∘ Result.positionOrder)
    (filter (λ r, (Some ∘ Result.driverId) r = Some d)
       (convert_positionOrder <$> results_df_clean results))
  = numeric_finishes results d.
Proof.
  rewrite group_of_driver.
  unfold numeric_finishes, rows_of_driver, results_df_clean.
  induction results as [|r results IH]; [done|].
  rewrite !filter_cons.
  destruct (to_numeric (Result.positionOrder r)) as [q|] eqn:Hq.
  - rewrite decide_True by eauto.
    rewrite fmap_cons, filter_cons; simpl.
    case_decide; simpl; rewrite ?Hq; simpl; [f_equal|]; exact IH.
  - rewrite decide_False by (by intros [??]).
    case_decide; simpl; rewrite ?Hq; simpl; exact IH.
Qed.

Lemma elem_of_numeric_finishes results d q :
  q ∈ numeric_finishes results d ↔
  ∃ r, r ∈ results ∧ Result.driverId r = d ∧
       to_numeric (Result.positionOrder r) = Some q.
Proof.
  unfold numeric_finishes, rows_of_driver. rewrite list_elem_of_omap.
  split.
  - intros (r & [Hd Hr]%list_elem_of_filter & Hq). eauto.
  - intros (r & Hr & Hd & Hq). exists r. by rewrite list_elem_of_filter.
Qed.

Lemma elem_of_total_career_races results d v :
  (d, v) ∈ total_career_races results ↔
  d ∈ Result.driverId <$> results ∧
  v = Qc_of_Z (Z.of_nat (size (races_of_driver results d))).
Proof.
  unfold total_career_races. rewrite elem_of_groupby.
  by rewrite group_of_driver, nunique_size, elem_of_Some_key.
Qed.

Lemma elem_of_avg_finish_position results d v :
  (d, v) ∈ avg_finish_position results ↔
  numeric_finishes results d ≠ [] ∧ v = mean (numeric_finishes results d).
Proof.
  unfold avg_finish_position. rewrite elem_of_groupby, clean_group.
  apply and_iff_compat_r.
  rewrite list_elem_of_fmap. split.
  - intros (r' & Hd & Hin).
    apply list_elem_of_fmap in Hin as (r & -> & Hin).
    apply list_elem_of_filter in Hin as [[q Hq] Hin].
    simpl in Hd. simplify_eq.
    intros Hnil.
    assert (q ∈ numeric_finishes results (Result.driverId r)) as Hel
      by (apply elem_of_numeric_finishes; eauto).
    rewrite Hnil in Hel. by apply not_elem_of_nil in Hel.
  - intros Hne.
    destruct (numeric_finishes results d) as [|q l] eqn:Hl; [done|].
    assert (q ∈ numeric_finishes results d) as Hel by (rewrite Hl; left).
    apply elem_of_numeric_finishes in Hel as (r & Hin & <- & Hq).
    exists (convert_positionOrder r). split; [done|].
    apply list_elem_of_fmap_2, list_elem_of_filter. by rewrite Hq.
Qed.

Lemma elem_of_total_driver_points results d v :
  (d, v) ∈ total_driver_points (coerce_points <$> results) ↔
  d ∈ Result.driverId <$> results ∧
  v = total (numeric_points (rows_of_driver results d)).
Proof.
  unfold total_driver_points. rewrite elem_of_groupby.
  rewrite group_of_driver, rows_of_driver_coerced, sum_coerced_points.
  by rewrite elem_of_Some_key, <-list_fmap_compose.
Qed.

Lemma elem_of_total_team_points results c v :
  (c, v) ∈ total_team_points (coerce_points <$> results) ↔
  c ∈ Result.constructorId <$> results ∧
  v = total (numeric_points (rows_of_team results c)).
Proof.
  unfold total_team_points. rewrite elem_of_groupby.
  rewrite group_of_team, rows_of_team_coerced, sum_coerced_points.
  by rewrite elem_of_Some_key, <-list_fmap_compose.
Qed.
End stage_lemmas.

(** ** The label joins *)

Lemma with_driver_name_bind (t : list (Z * Qc)) (drivers : list Driver.t) :
  with_driver_name t drivers
  = t ≫= λ dv, (λ label, (label, dv.2)) <$> driver_labels drivers dv.1.
Proof.
  unfold with_driver_name, merge_left. rewrite fmap_bind_list.
  apply list_bind_ext; [|done]. intros dv. unfold driver_labels.
  destruct (filter _ drivers); [done|].
  by rewrite <-!list_fmap_compose.
Qed.

Lemma with_team_name_bind (t : list (Z * Qc))
    (constructors : list Constructor.t) :
  with_team_name t constructors
  = t ≫= λ cv, (λ label, (label, cv.2)) <$> team_labels constructors cv.1.
Proof.
  unfold with_team_name, merge_left. rewrite fmap_bind_list.
  apply list_bind_ext; [|done]. intros cv. unfold team_labels.
  destruct (filter _ constructors); [done|].
  by rewrite <-!list_fmap_compose.
Qed.

Lemma elem_of_with_driver_name t drivers label v :
  (label, v) ∈ with_driver_name t drivers ↔
  ∃ d, (d, v) ∈ t ∧ label ∈ driver_labels drivers d.
Proof.
  rewrite with_driver_name_bind, list_elem_of_bind. split.
  - intros ([d v'] & Hin & Ht).
    apply list_elem_of_fmap in Hin as (l & [= -> ->] & Hl). eauto.
  - intros (d & Ht & Hl). exists (d, v). split; [|done].
    apply list_elem_of_fmap. eauto.
Qed.

Lemma elem_of_with_team_name t constructors label v :
  (label, v) ∈ with_team_name t constructors ↔
  ∃ c, (c, v) ∈ t ∧ label ∈ team_labels constructors c.
Proof.
  rewrite with_team_name_bind, list_elem_of_bind. split.
  - intros ([c v'] & Hin & Ht).
    apply list_elem_of_fmap in Hin as (l & [= -> ->] & Hl). eauto.
  - intros (c & Ht & Hl). exists (c, v). split; [|done].
    apply list_elem_of_fmap. eauto.
Qed.

Lemma driver_labels_nonempty drivers d : driver_labels drivers d ≠ [].
Proof. unfold driver_labels. by destruct (filter _ drivers). Qed.

Lemma team_labels_nonempty constructors c : team_labels constructors c ≠ [].
Proof. unfold team_labels. by destruct (filter _ constructors). Qed.

(** A driver absent from the driver table gets the null label, a driver in
    it gets a name. *)
Lemma driver_labels_unmatched drivers d :
  d ∉ Driver.driverId <$> drivers → driver_labels drivers d = [None].
Proof.
  intros Hd. unfold driver_labels.
  destruct (filter _ drivers) as [|x xs] eqn:Hf; [done|].
  exfalso. apply Hd.
  assert (x ∈ filter (λ x, Driver.driverId x = d) drivers) as Hx
    by (rewrite Hf; left).
  apply list_elem_of_filter in Hx as [<- Hx]. by apply list_elem_of_fmap_2.
Qed.

Lemma driver_labels_matched drivers x :
  x ∈ drivers →
  driverName (Some x) ∈ driver_labels drivers (Driver.driverId x).
Proof.
  intros Hx. unfold driver_labels.
  assert (x ∈ filter (λ y, Driver.driverId y = Driver.driverId x) drivers)
    as Hin by (by apply list_elem_of_filter).
  destruct (filter _ drivers) as [|y ys]; [by apply not_elem_of_nil in Hin|].
  by apply (list_elem_of_fmap_2 (λ x, driverName (Some x))).
Qed.

Lemma team_labels_unmatched constructors c :
  c ∉ Constructor.constructorId <$> constructors →
  team_labels constructors c = [None].
Proof.
  intros Hc. unfold team_labels.
  destruct (filter _ constructors) as [|x xs] eqn:Hf; [done|].
  exfalso. apply Hc.
  assert (x ∈ filter (λ x, Constructor.constructorId x = c) constructors)
    as Hx by (rewrite Hf; left).
  apply list_elem_of_filter in Hx as [<- Hx]. by apply list_elem_of_fmap_2.
Qed.

(** ** The run on a complete directory *)

Section run_lemmas.
Context `{NumericParser}.

(** With the five files in place the entry point loads them and runs the
    stages. *)
Lemma process_f1_data_loaded (data_dir : string) (w : world) (fr : frames) :
  dirs w !! data_dir = Some (directory_of fr) →
  process_f1_data data_dir w
  = process_loaded fr
      (World (dirs w) (written w)
         (stdout w ++ ["Loading data from " +:+ data_dir +:+ "...";
                       "All raw data loaded successfully."])).
Proof.
  intros Hdir.
  unfold process_f1_data, load, try_except, read_csv, print,
    mbind, M_bind, bind, ret.
  destruct w as [ds wr out]; simpl in *.
  repeat (progress (simpl; rewrite ?Hdir)).
  destruct fr; simpl. by rewrite <-(assoc_L (++)).
Qed.

(** The stages of a run compute the tables of [aggregate], and the run
    writes them under the five file names; the input directories are left
    as they are. *)
Lemma process_loaded_writes (fr : frames) (w : world) :
  let out := (aggregate fr).1 in
  let run := process_loaded fr w in
  run.1 = inr () ∧
  dirs run.2 = dirs w ∧
  written run.2
  = <[path_join output_dir "total_career_points_teams.csv" :=
        CsvFile ("TeamName", "TotalTeamPoints") (out_total_team_points out)]>
    (<[path_join output_dir "total_career_points_drivers.csv" :=
         CsvFile ("driverName", "TotalCareerPoints")
           (out_total_driver_points out)]>
     (<[path_join output_dir "average_career_finish_position.csv" :=
          CsvFile ("driverName", "AverageFinishPosition")
            (out_avg_finish_position out)]>
      (<[path_join output_dir "total_career_races.csv" :=
           CsvFile ("driverName", "TotalCareerRaces")
             (out_total_career_races out)]>
       (<[path_join output_dir "average_positions_gained.csv" :=
            CsvFile ("driverName", "AveragePositionsGained")
              (out_average_positions_gained out)]> (written w))))).
Proof. done. Qed.
End run_lemmas.

(** ** The end-to-end scenario *)

(** C1: on the single-driver fixture the run returns normally, the file
    average_positions_gained.csv holds exactly the row (Max Verstappen, -2)
    and the file total_career_points_teams.csv holds exactly the row
    (Red Bull, 15), whatever the races table holds. *)
Theorem C1_single_driver_fixture `{NumericParser} (races : list Race.t) :
  let run := process_f1_data "data" (single_driver_world races) in
  run.1 = inr () ∧
  written run.2 !! "processed_data/average_positions_gained.csv"
  = Some (CsvFile ("driverName", "AveragePositionsGained")
            [(Some "Max Verstappen", Qc_of_Z (-2))]) ∧
  written run.2 !! "processed_data/total_career_points_teams.csv"
  = Some (CsvFile ("TeamName", "TotalTeamPoints")
            [(Some "Red Bull", Qc_of_Z 15)]).
Proof.
  vm_compute. split; [done|].
  split; do 4 f_equal; apply Qc_is_canon; reflexivity.
Qed.

(** ** A missing input file *)

(** C2, as the code has it: when an input file is missing, the loader
    raises the error carrying the path of the first missing file in load
    order; the entry point catches it, prints the error and that path,
    returns normally, and writes no file. *)
Theorem C2_missing_file_reported `{NumericParser}
    (data_dir : string) (w : world) (path : string) (rest : list string) :
  missing_files data_dir w = path :: rest →
  load data_dir w = (inl (FileNotFoundError path), w) ∧
  process_f1_data data_dir w
  = (inr (),
     World (dirs w) (written w)
       (stdout w ++
        ["Loading data from " +:+ data_dir +:+ "...";
         "Error: One or more required CSV files not found. Make sure '"
           +:+ data_dir +:+ "' exists and contains all files.";
         "Missing file: " +:+ path])).
Proof.
  unfold missing_files, process_f1_data, load, try_except, missing_file,
    read_csv, print, mbind, M_bind, bind, ret, raise.
  destruct w as [ds wr out]; simpl.
  destruct (ds !! data_dir) as [[[d|] [r|] [res|] [q|] [c|]]|] eqn:Hdir;
    simpl; (intros [= <- <-] || (by intros [=]));
    repeat (progress (simpl; rewrite ?Hdir));
    by rewrite <-?(assoc_L (++)).
Qed.

Lemma C2_missing_file_reported_witness :
  load "data" missing_qualifying_world
  = (inl (FileNotFoundError "data/qualifying.csv"), missing_qualifying_world) ∧
  @process_f1_data decimal_parser "data" missing_qualifying_world
  = (inr (),
     World (dirs missing_qualifying_world) ∅
       ["Loading data from data...";
        "Error: One or more required CSV files not found. Make sure 'data' exists and contains all files.";
        "Missing file: data/qualifying.csv"]).
Proof.
  exact (@C2_missing_file_reported decimal_parser "data"
           missing_qualifying_world "data/qualifying.csv" [] eq_refl).
Defined.

(** C2, as stated, fails: with qualifying.csv deleted no exception reaches
    the caller; the call returns normally. *)
Lemma C2_no_error_propagated :
  let run := @process_f1_data decimal_parser "data" missing_qualifying_world in
  run.1 = inr () ∧ ∀ e, run.1 ≠ inl e.
Proof. split; [reflexivity|]. intros e. vm_compute. discriminate. Qed.

(** ** Unmatched identifiers *)

(** C3 at its failing input: a driver id that qualified and finished with
    numeric positions but is not in the driver table.  The left join keeps
    the row with a null name, the group-by on the name then has no group for
    it, and the average-positions-gained table is empty; the three tables
    keyed by driver id keep their row with a null label. *)
Theorem C3_unmatched_driver_dropped `{NumericParser} :
  (positions_gained_df unmatched_driver_frames).*2 = [None] ∧
  average_positions_gained unmatched_driver_frames = [] ∧
  (total_career_races_df unmatched_driver_frames).*1 = [None] ∧
  (avg_finish_position_df unmatched_driver_frames).*1 = [None] ∧
  (total_driver_points_df (assign_points unmatched_driver_frames)).*1 = [None].
Proof. by vm_compute. Qed.

(** ** The loaded tables during a run *)

Section frame_lemmas.
Context `{NumericParser}.

Lemma merged_positions_coerced qualifying results :
  merged_positions qualifying (coerce_points <$> results)
  = merged_positions qualifying results.
Proof.
  unfold merged_positions, race_finish_positions.
  by rewrite <-list_fmap_compose.
Qed.

Lemma average_positions_gained_coerced fr :
  average_positions_gained (assign_points fr) = average_positions_gained fr.
Proof.
  unfold average_positions_gained, positions_gained_df; simpl.
  by rewrite merged_positions_coerced.
Qed.

Lemma total_career_races_coerced results :
  total_career_races (coerce_points <$> results) = total_career_races results.
Proof.
  unfold total_career_races. apply (groupby_fmap Z.le); [done|].
  intros l. by rewrite <-list_fmap_compose.
Qed.

Lemma results_df_clean_coerced results :
  results_df_clean (coerce_points <$> results)
  = coerce_points <$> results_df_clean results.
Proof. unfold results_df_clean. by rewrite filter_fmap_list. Qed.

Lemma avg_finish_position_coerced results :
  avg_finish_position (coerce_points <$> results) = avg_finish_position results.
Proof.
  unfold avg_finish_position.
  rewrite results_df_clean_coerced, <-!list_fmap_compose.
  rewrite (list_fmap_ext (convert_positionOrder ∘ coerce_points)
             (coerce_points ∘ convert_positionOrder)) by done.
  rewrite list_fmap_compose.
  apply (groupby_fmap Z.le); [done|].
  intros l. f_equal.
  induction l as [|r l IH]; [done|]. rewrite !fmap_cons; simpl.
  destruct (float_of _); simpl; [f_equal|]; exact IH.
Qed.
End frame_lemmas.

(** C4, as the code has it: a run leaves the drivers, races, qualifying and
    constructors tables as loaded; of the results table it overwrites the
    points column with its coerced values and nothing else.  No output
    depends on that assignment having happened before: the first three
    tables are the same computed on the assigned table, and the two points
    tables are the same whether the column was assigned once or twice. *)
Theorem C4_only_points_column_assigned `{NumericParser} (fr : frames) :
  let fr' := (aggregate fr).2 in
  drivers_df fr' = drivers_df fr ∧
  races_df fr' = races_df fr ∧
  qualifying_df fr' = qualifying_df fr ∧
  constructors_df fr' = constructors_df fr ∧
  Forall2 (λ r r',
      Result.raceId r' = Result.raceId r ∧
      Result.driverId r' = Result.driverId r ∧
      Result.constructorId r' = Result.constructorId r ∧
      Result.positionOrder r' = Result.positionOrder r ∧
      Result.points r' = of_float (to_numeric (Result.points r)))
    (results_df fr) (results_df fr') ∧
  average_positions_gained (assign_points fr) = average_positions_gained fr ∧
  total_career_races_df (assign_points fr) = total_career_races_df fr ∧
  avg_finish_position_df (assign_points fr) = avg_finish_position_df fr ∧
  out_total_driver_points (aggregate fr).1
  = total_driver_points_df (assign_points fr) ∧
  out_total_team_points (aggregate fr).1
  = total_team_points_df (assign_points fr).
Proof.
  unfold aggregate; simpl. rewrite assign_points_idemp.
  split_and!; try done.
  - rewrite <-list_fmap_compose.
    apply Forall2_fmap_r, Forall_Forall2_diag, Forall_forall.
    intros r _; simpl. by rewrite to_numeric_idemp.
  - apply average_positions_gained_coerced.
  - unfold total_career_races_df; simpl. by rewrite total_career_races_coerced.
  - unfold avg_finish_position_df; simpl. by rewrite avg_finish_position_coerced.
Qed.

(** C4, as stated, fails: after a run over a results table whose points
    hold a retirement code, the results table is no longer as loaded. *)
Lemma C4_results_table_mutated :
  results_df (@aggregate decimal_parser text_points_frames).2
  ≠ results_df text_points_frames.
Proof. vm_compute. intros [=]. Qed.

(** ** Average positions gained *)






Lemma abs_sum_bound (zs : list Z) : Z.abs (foldr Z.add 0 zs) ≤ abs_sum zs.
Proof. induction zs as [|z zs IH]; simpl; lia. Qed.

Lemma total_of_Z (zs : list Z) :
  total (Qc_of_Z <$> zs) = Qc_of_Z (foldr Z.add 0 zs).
Proof.
  induction zs as [|z zs IH]; [symmetry; apply Z2Qc_inj_0|].
  rewrite fmap_cons. cbn [foldr]. rewrite Z2Qc_inj_add, <-IH. done.
Qed.

(** The exact sum of an exact column is a whole number of absolute value at
    most 2^53: a number that int64 and float64 both hold. *)
Lemma exact_column_total (col : list Qc) :
  exact_column col → whole_within (2 ^ 53) (total col).
Proof.
  intros (zs & -> & Hsum). exists (foldr Z.add 0 zs).
  split; [apply total_of_Z|]. pose proof (abs_sum_bound zs). lia.
Qed.

Lemma sublist_of_Z (col : list Qc) (zs : list Z) :
  col `sublist_of` Qc_of_Z <$> zs →
  ∃ zs', col = Qc_of_Z <$> zs' ∧ abs_sum zs' ≤ abs_sum zs.
Proof.
  revert col. induction zs as [|z zs IH]; intros col Hsub.
  - apply sublist_nil_r in Hsub as ->. by exists [].
  - rewrite fmap_cons in Hsub.
    apply sublist_cons_r in Hsub as [Hsub|(col' & -> & Hsub)].
    + destruct (IH _ Hsub) as (zs' & -> & Hle). exists zs'.
      split; [done|]. simpl. lia.
    + destruct (IH _ Hsub) as (zs' & -> & Hle). exists (z :: zs').
      split; [done|]. simpl. lia.
Qed.

(** A part of an exact column is an exact column. *)
Lemma exact_column_sublist (col col' : list Qc) :
  col' `sublist_of` col → exact_column col → exact_column col'.
Proof.
  intros Hsub (zs & -> & Hsum).
  destruct (sublist_of_Z _ _ Hsub) as (zs' & -> & Hle).
  exists zs'. split; [done|lia].
Qed.

Lemma omap_sublist {A B} (f : A → option B) (l l' : list A) :
  l `sublist_of` l' → omap f l `sublist_of` omap f l'.
Proof.
  induction 1 as [|x l l' _ IH|x l l' _ IH]; [done|..];
    cbn [omap list_omap]; destruct (f x); try done.
  - by apply sublist_skip.
  - by apply sublist_cons.
Qed.

Lemma exact_points_of_driver `{NumericParser} (results : list Result.t) d :
  exact_column (numeric_points results) →
  exact_column (numeric_points (rows_of_driver results d)).
Proof. apply exact_column_sublist, omap_sublist, sublist_filter. Qed.

Lemma exact_points_of_team `{NumericParser} (results : list Result.t) c :
  exact_column (numeric_points results) →
  exact_column (numeric_points (rows_of_team results c)).
Proof. apply exact_column_sublist, omap_sublist, sublist_filter. Qed.




(** ** The career aggregations *)

(** C6: the average finish position of a driver with at least one numeric
    positionOrder is the sum of the numeric positionOrder values of the
    driver's result rows divided by their number; rows whose positionOrder
    is not numeric count in neither.  It is the only value for that driver,
    and it is reported under every label of the driver. *)
Theorem C6_average_finish_numeric_only `{NumericParser} (fr : frames) (d : Z) :
  let finishes := numeric_finishes (results_df fr) d in
  let average := (total finishes / Qc_of_Z (Z.of_nat (length finishes)))%Qc in
  finishes ≠ [] →
  (∀ v, (d, v) ∈ avg_finish_position (results_df fr) ↔ v = average) ∧
  (∀ label, label ∈ driver_labels (drivers_df fr) d →
            (label, average) ∈ avg_finish_position_df fr).
Proof.
  intros finishes average Hne. split.
  - intros v. rewrite elem_of_avg_finish_position. tauto.
  - intros label Hlabel. unfold avg_finish_position_df.
    apply elem_of_sort_values, elem_of_with_driver_name.
    exists d. split; [|done]. by apply elem_of_avg_finish_position.
Qed.

Lemma C6_average_finish_numeric_only_witness :
  (Some "Max Verstappen", Q2Qc (3 # 2))
  ∈ @avg_finish_position_df decimal_parser finish_codes_frames.
Proof.
  assert (Q2Qc (3 # 2)
          = (total (@numeric_finishes decimal_parser
                      (results_df finish_codes_frames) 1)
             / Qc_of_Z (Z.of_nat (length (@numeric_finishes decimal_parser
                                            (results_df finish_codes_frames) 1))))%Qc)
    as -> by (apply Qc_is_canon; reflexivity).
  apply (@C6_average_finish_numeric_only decimal_parser finish_codes_frames 1).
  - vm_compute. discriminate.
  - by left.
Defined.

(** C7: the total career races of a driver of the result table is the number
    of distinct race ids among the driver's result rows; it is reported
    under every label of the driver, and it depends on the raceId and
    driverId columns alone, not on the finish positions. *)
Theorem C7_total_career_races_distinct (fr : frames) (d : Z) :
  let races := Qc_of_Z (Z.of_nat (size (races_of_driver (results_df fr) d))) in
  d ∈ Result.driverId <$> results_df fr →
  (∀ v, (d, v) ∈ total_career_races (results_df fr) ↔ v = races) ∧
  (∀ label, label ∈ driver_labels (drivers_df fr) d →
            (label, races) ∈ total_career_races_df fr) ∧
  (∀ results',
     result_key <$> results' = result_key <$> results_df fr →
     total_career_races results' = total_career_races (results_df fr)).
Proof.
  intros races Hd. split_and!.
  - intros v. rewrite elem_of_total_career_races. tauto.
  - intros label Hlabel. unfold total_career_races_df.
    apply elem_of_sort_values, elem_of_with_driver_name.
    exists d. split; [|done]. by apply elem_of_total_career_races.
  - assert (∀ results, total_career_races results
            = groupby Z.le (Some ∘ snd)
                (λ g, Qc_of_Z (Z.of_nat (nunique (fst <$> g))))
                (result_key <$> results)) as Hkeys.
    { intros results. unfold total_career_races. symmetry.
      apply (groupby_fmap Z.le); [done|].
      intros l. by rewrite <-list_fmap_compose. }
    intros results' Heq. by rewrite !Hkeys, Heq.
Qed.

Lemma C7_total_career_races_distinct_witness :
  (Some "Max Verstappen", Qc_of_Z 2)
  ∈ total_career_races_df repeated_race_frames ∧
  total_career_races
    [Result.mk 10 1 6 NaN NaN; Result.mk 10 1 7 NaN NaN;
     Result.mk 11 1 8 (Num (Qc_of_Z 1)) NaN]
  = total_career_races (results_df repeated_race_frames).
Proof.
  destruct (C7_total_career_races_distinct repeated_race_frames 1)
    as (_ & Hlabel & Hkeys).
  - by left.
  - split.
    + apply Hlabel. by left.
    + by apply Hkeys.
Defined.

(** Two rows of a keyed table, with a label each, are two rows of the
    labelled and sorted table. *)
Lemma two_labelled_rows (t : list (Z * Qc)) (drivers : list Driver.t)
    (asc : bool) d1 d2 v1 v2 label1 label2 :
  d1 ≠ d2 → (d1, v1) ∈ t → (d2, v2) ∈ t →
  label1 ∈ driver_labels drivers d1 → label2 ∈ driver_labels drivers d2 →
  ∃ rest, sort_values asc (with_driver_name t drivers)
          ≡ₚ (label1, v1) :: (label2, v2) :: rest.
Proof.
  intros Hne H1 H2 Hl1 Hl2.
  apply elem_of_Permutation in H1 as [t1 Ht1].
  assert ((d2, v2) ∈ t1) as [t2 Ht2]%elem_of_Permutation.
  { rewrite Ht1 in H2. apply elem_of_cons in H2 as [[= ? ?]|?]; done. }
  apply elem_of_Permutation in Hl1 as [k1 Hk1].
  apply elem_of_Permutation in Hl2 as [k2 Hk2].
  eexists. rewrite sort_values_Permutation, with_driver_name_bind.
  rewrite Ht1, Ht2, !bind_cons; simpl. rewrite Hk1, Hk2, !fmap_cons.
  rewrite <-!app_comm_cons. apply perm_skip.
  rewrite <-Permutation_middle. reflexivity.
Qed.

(** C8: the three career reductions are keyed by the driver id.  Two rows
    of the driver table with different driver ids and the same full name,
    both ids occurring in the result table, have two rows in each table,
    each with the value of its own driver's result rows. *)
Theorem C8_namesakes_not_merged `{NumericParser} (fr : frames)
    (x1 x2 : Driver.t) :
  let name := driverName (Some x1) in
  let d1 := Driver.driverId x1 in
  let d2 := Driver.driverId x2 in
  let results := results_df fr in
  x1 ∈ drivers_df fr → x2 ∈ drivers_df fr →
  d1 ≠ d2 →
  driverName (Some x2) = name →
  d1 ∈ Result.driverId <$> results →
  d2 ∈ Result.driverId <$> results →
  (∃ rest,
     total_career_races_df fr ≡ₚ
     (name, Qc_of_Z (Z.of_nat (size (races_of_driver results d1)))) ::
     (name, Qc_of_Z (Z.of_nat (size (races_of_driver results d2)))) :: rest) ∧
  (numeric_finishes results d1 ≠ [] → numeric_finishes results d2 ≠ [] →
   ∃ rest,
     avg_finish_position_df fr ≡ₚ
     (name, mean (numeric_finishes results d1)) ::
     (name, mean (numeric_finishes results d2)) :: rest) ∧
  (∃ rest,
     out_total_driver_points (aggregate fr).1 ≡ₚ
     (name, total (numeric_points (rows_of_driver results d1))) ::
     (name, total (numeric_points (rows_of_driver results d2))) :: rest).
Proof.
  intros name d1 d2 results Hx1 Hx2 Hne Hname Hd1 Hd2.
  apply driver_labels_matched in Hx1, Hx2. rewrite Hname in Hx2.
  split_and!.
  - apply (two_labelled_rows _ _ _ d1 d2); [done| | |done..];
      by apply elem_of_total_career_races.
  - intros Hf1 Hf2.
    apply (two_labelled_rows _ _ _ d1 d2); [done| | |done..];
      by apply elem_of_avg_finish_position.
  - unfold aggregate; simpl.
    apply (two_labelled_rows _ _ _ d1 d2); [done| | |done..];
      by apply elem_of_total_driver_points.
Qed.

Lemma C8_namesakes_not_merged_witness :
  (∃ rest,
     total_career_races_df namesake_frames ≡ₚ
     (Some "Graham Hill", Qc_of_Z 1) :: (Some "Graham Hill", Qc_of_Z 2) :: rest) ∧
  (∃ rest,
     @avg_finish_position_df decimal_parser namesake_frames ≡ₚ
     (Some "Graham Hill",
      mean (@numeric_finishes decimal_parser (results_df namesake_frames) 1)) ::
     (Some "Graham Hill",
      mean (@numeric_finishes decimal_parser (results_df namesake_frames) 2)) ::
     rest) ∧
  (∃ rest,
     out_total_driver_points (@aggregate decimal_parser namesake_frames).1 ≡ₚ
     (Some "Graham Hill",
      total (@numeric_points decimal_parser
               (rows_of_driver (results_df namesake_frames) 1))) ::
     (Some "Graham Hill",
      total (@numeric_points decimal_parser
               (rows_of_driver (results_df namesake_frames) 2))) :: rest).
Proof.
  destruct (@C8_namesakes_not_merged decimal_parser namesake_frames
              (Driver.mk 1 "Graham" "Hill") (Driver.mk 2 "Graham" "Hill"))
    as (Hraces & Hfinish & Hpoints).
  - by left.
  - right; by left.
  - discriminate.
  - reflexivity.
  - by left.
  - right; by left.
  - split_and!; [exact Hraces| |exact Hpoints].
    apply Hfinish; vm_compute; discriminate.
Defined.

(** ** Row order *)

Section order_lemmas.
Context `{NumericParser}.





End order_lemmas.





(** ** Points that are all non-numeric *)

(** C10: a driver of the result table none of whose points is numeric has a
    row with the total 0 in the total-career-points table, under every label
    of the driver, and 0 is the only value of that driver; the same holds
    for a constructor and the total-team-points table. *)
Theorem C10_all_points_missing_sum_zero `{NumericParser} (fr : frames) :
  let results := results_df fr in
  (∀ d, d ∈ Result.driverId <$> results →
     (∀ r, r ∈ results → Result.driverId r = d →
           to_numeric (Result.points r) = None) →
     (∀ v, (d, v) ∈ total_driver_points (results_df (assign_points fr))
           ↔ v = 0%Qc) ∧
     (∀ label, label ∈ driver_labels (drivers_df fr) d →
               (label, 0%Qc) ∈ out_total_driver_points (aggregate fr).1)) ∧
  (∀ c, c ∈ Result.constructorId <$> results →
     (∀ r, r ∈ results → Result.constructorId r = c →
           to_numeric (Result.points r) = None) →
     (∀ v, (c, v) ∈ total_team_points (results_df (assign_points fr))
           ↔ v = 0%Qc) ∧
     (∀ label, label ∈ team_labels (constructors_df fr) c →
               (label, 0%Qc) ∈ out_total_team_points (aggregate fr).1)).
Proof.
  intros results. subst results.
  assert (∀ rows : list Result.t,
            (∀ r, r ∈ rows → to_numeric (Result.points r) = None) →
            total (numeric_points rows) = 0%Qc) as Hzero.
  { intros rows Hrows. unfold numeric_points.
    induction rows as [|r rows IH]; [done|]. simpl.
    rewrite (Hrows r) by left.
    apply IH. intros r' Hr'. apply Hrows. by right. }
  split.
  - intros d Hd Hnone.
    assert (total (numeric_points (rows_of_driver (results_df fr) d)) = 0%Qc)
      as H0.
    { apply Hzero. intros r [Hr1 Hr2]%list_elem_of_filter. by apply Hnone. }
    split.
    + intros v. simpl. rewrite elem_of_total_driver_points, H0. tauto.
    + intros label Hlabel. unfold aggregate; simpl.
      apply elem_of_sort_values, elem_of_with_driver_name.
      exists d. split; [|done]. by apply elem_of_total_driver_points.
  - intros c Hc Hnone.
    assert (total (numeric_points (rows_of_team (results_df fr) c)) = 0%Qc)
      as H0.
    { apply Hzero. intros r [Hr1 Hr2]%list_elem_of_filter. by apply Hnone. }
    split.
    + intros v. simpl. rewrite elem_of_total_team_points, H0. tauto.
    + intros label Hlabel. unfold aggregate; simpl.
      rewrite assign_points_idemp.
      apply elem_of_sort_values, elem_of_with_team_name.
      exists c. split; [|done]. by apply elem_of_total_team_points.
Qed.

Lemma C10_all_points_missing_sum_zero_witness :
  (None, 0%Qc)
  ∈ out_total_driver_points (@aggregate decimal_parser namesake_frames).1 ∧
  (Some "Brabham", 0%Qc)
  ∈ out_total_team_points (@aggregate decimal_parser namesake_frames).1.
Proof.
  destruct (@C10_all_points_missing_sum_zero decimal_parser namesake_frames)
    as [Hdriver Hteam].
  split.
  - apply (Hdriver 3).
    + vm_compute. do 3 right. by left.
    + intros r Hr Hd. vm_compute in Hr.
      repeat (apply elem_of_cons in Hr as [->|Hr]; [by vm_compute in Hd|]).
      by apply not_elem_of_nil in Hr.
    + by left.
  - apply (Hteam 7).
    + vm_compute. do 3 right. by left.
    + intros r Hr Hc. vm_compute in Hr.
      repeat (apply elem_of_cons in Hr as [->|Hr]; [by vm_compute in Hc|]).
      by apply not_elem_of_nil in Hr.
    + by left.
Defined.

(** ** Null labels, table by table *)

(** The tables keyed by driver id keep the row of a driver id that the
    driver table does not hold, under the null label. *)
Lemma unmatched_driver_kept (t : list (Z * Qc)) (drivers : list Driver.t)
    (asc : bool) (d : Z) (v : Qc) :
  (d, v) ∈ t → d ∉ Driver.driverId <$> drivers →
  (None, v) ∈ sort_values asc (with_driver_name t drivers).
Proof.
  intros Ht Hd. apply elem_of_sort_values, elem_of_with_driver_name.
  exists d. split; [done|]. rewrite driver_labels_unmatched by done. by left.
Qed.

Lemma unmatched_team_kept (t : list (Z * Qc))
    (constructors : list Constructor.t) (asc : bool) (c : Z) (v : Qc) :
  (c, v) ∈ t → c ∉ Constructor.constructorId <$> constructors →
  (None, v) ∈ sort_values asc (with_team_name t constructors).
Proof.
  intros Ht Hc. apply elem_of_sort_values, elem_of_with_team_name.
  exists c. split; [done|]. rewrite team_labels_unmatched by done. by left.
Qed.

(** The average-positions-gained table, grouped by the name, has no row
    under the null label. *)
Lemma average_positions_gained_named `{NumericParser} (fr : frames) label v :
  (label, v) ∈ average_positions_gained fr → is_Some label.
Proof.
  unfold average_positions_gained. intros Hin.
  apply elem_of_sort_values in Hin.
  apply list_elem_of_fmap in Hin as (kv & [= -> _] & _). eauto.
Qed.

(** * Further properties of the run *)

(** ** The files of a run *)

Section run_properties.
Context `{NumericParser}.

Lemma missing_files_nil (data_dir : string) (w : world) :
  missing_files data_dir w = [] →
  ∃ fr, dirs w !! data_dir = Some (directory_of fr).
Proof.
  unfold missing_files.
  destruct (dirs w !! data_dir) as [[[d|] [r|] [res|] [q|] [c|]]|];
    simpl; try done.
  intros _. by exists (Frames d r res q c).
Qed.

Lemma process_f1_data_missing (data_dir : string) (w : world) path rest :
  missing_files data_dir w = path :: rest →
  process_f1_data data_dir w
  = (inr (),
     World (dirs w) (written w)
       (stdout w ++
        ["Loading data from " +:+ data_dir +:+ "...";
         "Error: One or more required CSV files not found. Make sure '"
           +:+ data_dir +:+ "' exists and contains all files.";
         "Missing file: " +:+ path])).
Proof.
  unfold missing_files, process_f1_data, load, try_except, missing_file,
    read_csv, print, mbind, M_bind, bind, ret, raise.
  destruct w as [ds wr out]; simpl.
  destruct (ds !! data_dir) as [[[d|] [r|] [res|] [q|] [c|]]|] eqn:Hdir;
    simpl; (intros [= <- <-] || (by intros [=]));
    repeat (progress (simpl; rewrite ?Hdir));
    by rewrite <-?(assoc_L (++)).
Qed.

Lemma dirs_process_loaded (fr : frames) (w : world) :
  dirs (process_loaded fr w).2 = dirs w.
Proof. done. Qed.

Lemma written_after_run (fr : frames) (w : world) (p : string) :
  written (process_loaded fr w).2 !! p
  = match list_to_map (M := gmap string csv_file)
            (output_files (aggregate fr).1) !! p with
    | Some f => Some f
    | None => written w !! p
    end.
Proof.
  destruct (process_loaded_writes fr w) as (_ & _ & ->).
  unfold output_files, list_to_map; simpl.
  change (path_join output_dir "average_positions_gained.csv")
    with "processed_data/average_positions_gained.csv".
  change (path_join output_dir "total_career_races.csv")
    with "processed_data/total_career_races.csv".
  change (path_join output_dir "average_career_finish_position.csv")
    with "processed_data/average_career_finish_position.csv".
  change (path_join output_dir "total_career_points_drivers.csv")
    with "processed_data/total_career_points_drivers.csv".
  change (path_join output_dir "total_career_points_teams.csv")
    with "processed_data/total_career_points_teams.csv".
  rewrite !lookup_insert. repeat case_decide; simplify_eq; done.
Qed.
End run_properties.

(** X1: when the directory holds all five input files, the run returns
    normally, leaves the input directories as they are, leaves each of the
    five output files with its header and the table of its stage, and
    touches no other file. *)
Theorem X1_complete_run_writes_five_files `{NumericParser}
    (data_dir : string) (w : world) (fr : frames) :
  dirs w !! data_dir = Some (directory_of fr) →
  let run := process_f1_data data_dir w in
  run.1 = inr () ∧
  dirs run.2 = dirs w ∧
  (∀ p f, (p, f) ∈ output_files (aggregate fr).1 →
          written run.2 !! p = Some f) ∧
  (∀ p, p ∉ (output_files (aggregate fr).1).*1 →
        written run.2 !! p = written w !! p).
Proof.
  intros Hdir; simpl. rewrite (process_f1_data_loaded _ _ _ Hdir).
  split_and!.
  - done.
  - done.
  - intros p f Hin. rewrite written_after_run.
    rewrite (elem_of_list_to_map_1 _ p f); [done| |done].
    apply (bool_decide_unpack _). by vm_compute.
  - intros p Hp. rewrite written_after_run.
    by rewrite (not_elem_of_list_to_map_1 _ p).
Qed.

Lemma X1_complete_run_writes_five_files_witness :
  let run := @process_f1_data decimal_parser "data" (single_driver_world []) in
  run.1 = inr () ∧
  dirs run.2 = dirs (single_driver_world []) ∧
  (∀ p f,
     (p, f) ∈ output_files (@aggregate decimal_parser (single_driver_frames [])).1 →
     written run.2 !! p = Some f) ∧
  (∀ p,
     p ∉ (output_files (@aggregate decimal_parser (single_driver_frames [])).1).*1 →
     written run.2 !! p = written (single_driver_world []) !! p).
Proof.
  apply (@X1_complete_run_writes_five_files decimal_parser "data"
           (single_driver_world []) (single_driver_frames [])).
  reflexivity.
Defined.

Section rerun_lemmas.
Context `{NumericParser}.

Lemma missing_files_dirs (data_dir : string) (w w' : world) :
  dirs w' = dirs w → missing_files data_dir w' = missing_files data_dir w.
Proof. intros E. unfold missing_files. by rewrite E. Qed.

Lemma rerun_complete (data_dir : string) (w : world) (fr : frames) :
  dirs w !! data_dir = Some (directory_of fr) →
  dirs (process_f1_data data_dir w).2 = dirs w ∧
  dirs (process_f1_data data_dir (process_f1_data data_dir w).2).2 = dirs w ∧
  written (process_f1_data data_dir (process_f1_data data_dir w).2).2
  = written (process_f1_data data_dir w).2.
Proof.
  intros Hdir.
  assert (dirs (process_f1_data data_dir w).2 = dirs w) as Hd1.
  { rewrite (process_f1_data_loaded data_dir w fr Hdir).
    by rewrite dirs_process_loaded. }
  assert (dirs (process_f1_data data_dir w).2 !! data_dir
          = Some (directory_of fr)) as Hdir1 by (by rewrite Hd1).
  split_and!; [done| |].
  - rewrite (process_f1_data_loaded _ _ fr Hdir1).
    by rewrite dirs_process_loaded.
  - apply map_eq. intros p.
    rewrite (process_f1_data_loaded _ _ fr Hdir1), written_after_run.
    cbn [written].
    rewrite (process_f1_data_loaded data_dir w fr Hdir), written_after_run.
    by destruct (list_to_map _ !! p).
Qed.

Lemma rerun_missing (data_dir : string) (w : world) path rest :
  missing_files data_dir w = path :: rest →
  dirs (process_f1_data data_dir w).2 = dirs w ∧
  dirs (process_f1_data data_dir (process_f1_data data_dir w).2).2 = dirs w ∧
  written (process_f1_data data_dir (process_f1_data data_dir w).2).2
  = written (process_f1_data data_dir w).2.
Proof.
  intros Hmiss.
  assert (dirs (process_f1_data data_dir w).2 = dirs w) as Hd1
    by (by rewrite (process_f1_data_missing _ _ _ _ Hmiss)).
  assert (written (process_f1_data data_dir w).2 = written w) as Hw1
    by (by rewrite (process_f1_data_missing _ _ _ _ Hmiss)).
  pose proof (missing_files_dirs data_dir _ _ Hd1) as Hmiss1.
  rewrite Hmiss in Hmiss1.
  split_and!; [done| |].
  - rewrite (process_f1_data_missing _ _ _ _ Hmiss1). cbn [snd dirs]. done.
  - rewrite (process_f1_data_missing _ _ _ _ Hmiss1). cbn [snd written]. done.
Qed.
End rerun_lemmas.

(** X2: a second run over the same directory leaves the written files
    exactly as the first run left them, whether the input was complete or
    not, and no run changes the input directories. *)
Theorem X2_rerun_leaves_same_files `{NumericParser}
    (data_dir : string) (w : world) :
  let w1 := (process_f1_data data_dir w).2 in
  let w2 := (process_f1_data data_dir w1).2 in
  dirs w1 = dirs w ∧ dirs w2 = dirs w ∧ written w2 = written w1.
Proof.
  intros w1 w2. subst w2 w1.
  destruct (missing_files data_dir w) as [|path rest] eqn:Hmiss.
  - apply missing_files_nil in Hmiss as [fr Hdir]. by eapply rerun_complete.
  - by eapply rerun_missing.
Qed.

(** X3: no output depends on the rows of the races table, and yet a missing
    races.csv ends the run: with drivers.csv in place it is the file named
    as missing, and nothing is written. *)
Theorem X3_races_required_but_unused `{NumericParser} :
  (∀ fr races',
     (aggregate (Frames (drivers_df fr) races' (results_df fr)
                   (qualifying_df fr) (constructors_df fr))).1
     = (aggregate fr).1) ∧
  (∀ data_dir w dir,
     dirs w !! data_dir = Some dir →
     is_Some (drivers_csv dir) → races_csv dir = None →
     process_f1_data data_dir w
     = (inr (),
        World (dirs w) (written w)
          (stdout w ++
           ["Loading data from " +:+ data_dir +:+ "...";
            "Error: One or more required CSV files not found. Make sure '"
              +:+ data_dir +:+ "' exists and contains all files.";
            "Missing file: " +:+ path_join data_dir "races.csv"]))).
Proof.
  split; [done|].
  intros data_dir w dir Hdir [d Hd] Hr.
  assert (∃ rest, missing_files data_dir w
                  = path_join data_dir "races.csv" :: rest) as [rest Hm].
  { unfold missing_files. rewrite Hdir; simpl. rewrite Hd, Hr; simpl. eauto. }
  by apply process_f1_data_missing with rest.
Qed.

Lemma X3_races_required_but_unused_witness :
  @process_f1_data decimal_parser "data" missing_races_world
  = (inr (),
     World (dirs missing_races_world) ∅
       ["Loading data from data...";
        "Error: One or more required CSV files not found. Make sure 'data' exists and contains all files.";
        "Missing file: data/races.csv"]).
Proof.
  apply (proj2 (@X3_races_required_but_unused decimal_parser) "data"
           missing_races_world _ eq_refl); [by eexists|reflexivity].
Defined.

(** ** The order and the number of the rows *)

Global Instance value_asc_total : Total value_asc.
Proof. intros a b. unfold value_asc. apply Qc_le_total. Qed.
Global Instance value_asc_trans : Transitive value_asc.
Proof. intros a b c. unfold value_asc. apply Qcle_trans. Qed.
Global Instance value_desc_total : Total value_desc.
Proof. intros a b. unfold value_desc. apply Qc_le_total. Qed.
Global Instance value_desc_trans : Transitive value_desc.
Proof. intros a b c ??. unfold value_desc in *. by eapply Qcle_trans. Qed.

(** X4: every output table is in the order of its [sort_values]: the
    average finish positions ascending, the four others descending; each
    row's value bounds the values of all rows after it. *)
Theorem X4_outputs_sorted `{NumericParser} (fr : frames) :
  let out := (aggregate fr).1 in
  StronglySorted value_desc (out_average_positions_gained out) ∧
  StronglySorted value_desc (out_total_career_races out) ∧
  StronglySorted value_asc (out_avg_finish_position out) ∧
  StronglySorted value_desc (out_total_driver_points out) ∧
  StronglySorted value_desc (out_total_team_points out).
Proof.
  unfold aggregate; simpl.
  split_and!; apply (StronglySorted_merge_sort _).
Qed.

Section count_lemmas.
Context {A K : Type} `{EqDecision K}.

Lemma filter_none (P : A → Prop) `{∀ x, Decision (P x)} (l : list A) :
  (∀ x, x ∈ l → ¬ P x) → filter P l = [].
Proof.
  intros Hl. destruct (filter P l) as [|y ys] eqn:Hf; [done|].
  assert (y ∈ filter P l) as [Hy Hin]%list_elem_of_filter by (rewrite Hf; left).
  by destruct (Hl y).
Qed.

Lemma filter_unique_key (f : A → K) (l : list A) (k : K) :
  NoDup (f <$> l) → (length (filter (λ x, f x = k) l) ≤ 1)%nat.
Proof.
  induction l as [|a l IH]; [simpl; lia|].
  rewrite fmap_cons, NoDup_cons. intros [Ha Hl].
  rewrite filter_cons. case_decide as Hk; [|by apply IH].
  rewrite filter_none; [simpl; lia|].
  intros x Hx Hfx. apply Ha. rewrite Hk, <-Hfx. by apply list_elem_of_fmap_2.
Qed.

Lemma length_groupby {B} (R : relation K) `{!RelDecision R}
    (key : A → option K) (agg : list A → B) (df : list A) :
  length (groupby R key agg df)
  = length (remove_dups (omap id (key <$> df))).
Proof.
  unfold groupby, group_keys. rewrite length_fmap.
  apply Permutation_length, merge_sort_Permutation.
Qed.

Lemma omap_Some_key (f : A → K) (l : list A) :
  omap id (Some ∘ f <$> l) = f <$> l.
Proof. induction l as [|a l IH]; [done|]. simpl. by f_equal. Qed.
End count_lemmas.

Lemma length_driver_labels (drivers : list Driver.t) (d : Z) :
  NoDup (Driver.driverId <$> drivers) → length (driver_labels drivers d) = 1%nat.
Proof.
  intros Hnd. unfold driver_labels.
  pose proof (filter_unique_key Driver.driverId drivers d Hnd) as Hle.
  destruct (filter _ drivers) as [|x [|y ys]]; simpl in *; [done..|lia].
Qed.

Lemma length_team_labels (constructors : list Constructor.t) (c : Z) :
  NoDup (Constructor.constructorId <$> constructors) →
  length (team_labels constructors c) = 1%nat.
Proof.
  intros Hnd. unfold team_labels.
  pose proof (filter_unique_key Constructor.constructorId constructors c Hnd)
    as Hle.
  destruct (filter _ constructors) as [|x [|y ys]]; simpl in *; [done..|lia].
Qed.

Lemma length_with_driver_name (t : list (Z * Qc)) (drivers : list Driver.t) :
  NoDup (Driver.driverId <$> drivers) →
  length (with_driver_name t drivers) = length t.
Proof.
  intros Hnd. rewrite with_driver_name_bind.
  induction t as [|dv t IH]; [done|].
  rewrite bind_cons, length_app, length_fmap, IH.
  by rewrite length_driver_labels.
Qed.

Lemma length_with_team_name (t : list (Z * Qc))
    (constructors : list Constructor.t) :
  NoDup (Constructor.constructorId <$> constructors) →
  length (with_team_name t constructors) = length t.
Proof.
  intros Hnd. rewrite with_team_name_bind.
  induction t as [|cv t IH]; [done|].
  rewrite bind_cons, length_app, length_fmap, IH.
  by rewrite length_team_labels.
Qed.

Lemma length_sort_values (asc : bool) (df : stats) :
  length (sort_values asc df) = length df.
Proof. apply Permutation_length, sort_values_Permutation. Qed.

Lemma length_keyed_table {V} (f : Result.t → Z) (agg : list Result.t → V)
    (results : list Result.t) :
  length (groupby Z.le (Some ∘ f) agg results)
  = size (list_to_set (f <$> results) : gset Z).
Proof. by rewrite length_groupby, omap_Some_key, <-nunique_size. Qed.

(** X5: when no driver id occurs twice in the driver table, the total career
    races and the total career points tables have exactly one row per
    distinct driver id of the result table, and the average finish position
    table one row per distinct driver id among the rows with a numeric
    positionOrder; when no constructor id occurs twice in the constructor
    table, the team points table has one row per distinct constructor id
    of the result table. *)
Theorem X5_one_row_per_key `{NumericParser} (fr : frames) :
  NoDup (Driver.driverId <$> drivers_df fr) →
  NoDup (Constructor.constructorId <$> constructors_df fr) →
  let out := (aggregate fr).1 in
  let results := results_df fr in
  length (out_total_career_races out)
  = size (list_to_set (Result.driverId <$> results) : gset Z) ∧
  length (out_avg_finish_position out)
  = size (list_to_set (Result.driverId <$> results_df_clean results) : gset Z) ∧
  length (out_total_driver_points out)
  = size (list_to_set (Result.driverId <$> results) : gset Z) ∧
  length (out_total_team_points out)
  = size (list_to_set (Result.constructorId <$> results) : gset Z).
Proof.
  intros Hd Hc out results. subst out results. unfold aggregate.
  cbn [fst out_total_career_races out_avg_finish_position
       out_total_driver_points out_total_team_points].
  rewrite assign_points_idemp.
  unfold total_career_races_df, avg_finish_position_df,
    total_driver_points_df, total_team_points_df.
  rewrite !length_sort_values.
  cbn [assign_points results_df drivers_df constructors_df].
  rewrite !length_with_driver_name, length_with_team_name by done.
  unfold total_career_races, avg_finish_position, total_driver_points,
    total_team_points.
  rewrite !length_keyed_table, <-!list_fmap_compose.
  done.
Qed.

Lemma X5_one_row_per_key_witness :
  let out := (@aggregate decimal_parser namesake_frames).1 in
  length (out_total_career_races out) = 3%nat ∧
  length (out_avg_finish_position out) = 2%nat ∧
  length (out_total_driver_points out) = 3%nat ∧
  length (out_total_team_points out) = 3%nat.
Proof.
  apply (@X5_one_row_per_key decimal_parser namesake_frames);
    apply (bool_decide_unpack _); by vm_compute.
Defined.

(** ** Edge cases of the joins *)

Lemma driver_labels_duplicates (drivers others : list Driver.t)
    (x1 x2 : Driver.t) :
  drivers ≡ₚ x1 :: x2 :: others →
  Driver.driverId x2 = Driver.driverId x1 →
  ∃ k, driver_labels drivers (Driver.driverId x1)
       ≡ₚ driverName (Some x1) :: driverName (Some x2) :: k.
Proof.
  intros Hp Hid. unfold driver_labels.
  assert (filter (λ x, Driver.driverId x = Driver.driverId x1) drivers
          ≡ₚ x1 :: x2 ::
             filter (λ x, Driver.driverId x = Driver.driverId x1) others)
    as Hf.
  { rewrite Hp. by rewrite !filter_cons, !decide_True. }
  destruct (filter _ drivers) as [|y ys] eqn:Hys.
  { symmetry in Hf. by apply Permutation_nil_r in Hf. }
  eexists. rewrite Hf. by rewrite !fmap_cons.
Qed.

Lemma doubled_labelled_rows (t : list (Z * Qc)) (drivers : list Driver.t)
    (asc : bool) d v label1 label2 k :
  (d, v) ∈ t →
  driver_labels drivers d ≡ₚ label1 :: label2 :: k →
  ∃ rest, sort_values asc (with_driver_name t drivers)
          ≡ₚ (label1, v) :: (label2, v) :: rest.
Proof.
  intros [t1 Ht]%elem_of_Permutation Hk.
  eexists. rewrite sort_values_Permutation, with_driver_name_bind.
  rewrite Ht, bind_cons; simpl. rewrite Hk, !fmap_cons.
  rewrite <-!app_comm_cons. reflexivity.
Qed.

(** X6: a driver id that two rows of the driver table carry gets two rows in
    the total career races and the total career points tables, one under
    the name of each row, both with the same value. *)
Theorem X6_duplicate_driver_rows_fan_out `{NumericParser} (fr : frames)
    (x1 x2 : Driver.t) (others : list Driver.t) :
  let d := Driver.driverId x1 in
  let results := results_df fr in
  let races := Qc_of_Z (Z.of_nat (size (races_of_driver results d))) in
  let points := total (numeric_points (rows_of_driver results d)) in
  drivers_df fr ≡ₚ x1 :: x2 :: others →
  Driver.driverId x2 = d →
  d ∈ Result.driverId <$> results →
  (∃ rest,
     out_total_career_races (aggregate fr).1 ≡ₚ
     (driverName (Some x1), races) :: (driverName (Some x2), races) :: rest) ∧
  (∃ rest,
     out_total_driver_points (aggregate fr).1 ≡ₚ
     (driverName (Some x1), points) :: (driverName (Some x2), points) :: rest).
Proof.
  intros d results races points Hp Hid Hd.
  destruct (driver_labels_duplicates _ _ _ _ Hp Hid) as [k Hk].
  split.
  - apply (doubled_labelled_rows _ _ _ d _ _ _ k); [|done].
    by apply elem_of_total_career_races.
  - unfold aggregate; simpl.
    apply (doubled_labelled_rows _ _ _ d _ _ _ k); [|done].
    by apply elem_of_total_driver_points.
Qed.

Lemma X6_duplicate_driver_rows_fan_out_witness :
  (∃ rest,
     out_total_career_races (@aggregate decimal_parser duplicate_driver_frames).1
     ≡ₚ (Some "Max Verstappen", Qc_of_Z 2)
        :: (Some "M. Verstappen", Qc_of_Z 2) :: rest) ∧
  (∃ rest,
     out_total_driver_points (@aggregate decimal_parser duplicate_driver_frames).1
     ≡ₚ (Some "Max Verstappen",
         total (@numeric_points decimal_parser
                  (rows_of_driver (results_df duplicate_driver_frames) 1)))
        :: (Some "M. Verstappen",
            total (@numeric_points decimal_parser
                     (rows_of_driver (results_df duplicate_driver_frames) 1)))
        :: rest).
Proof.
  apply (@X6_duplicate_driver_rows_fan_out decimal_parser
           duplicate_driver_frames (Driver.mk 1 "Max" "Verstappen")
           (Driver.mk 1 "M." "Verstappen") []).
  - reflexivity.
  - reflexivity.
  - by left.
Defined.

(** X7: a driver of the result table none of whose positionOrder values is
    numeric has no row in the average finish position table, while the
    total career races and the total career points tables hold the
    driver. *)
Theorem X7_no_numeric_finish_no_average `{NumericParser}
    (fr : frames) (d : Z) :
  d ∈ Result.driverId <$> results_df fr →
  numeric_finishes (results_df fr) d = [] →
  (∀ v, (d, v) ∉ avg_finish_position (results_df fr)) ∧
  (∃ v, (d, v) ∈ total_career_races (results_df fr)) ∧
  (∃ v, (d, v) ∈ total_driver_points (results_df (assign_points fr))).
Proof.
  intros Hd Hnone. split_and!.
  - intros v [Hne _]%elem_of_avg_finish_position. done.
  - eexists. by apply elem_of_total_career_races.
  - eexists. by apply elem_of_total_driver_points.
Qed.

Lemma X7_no_numeric_finish_no_average_witness :
  (∀ v, (3, v) ∉ @avg_finish_position decimal_parser
                   (results_df namesake_frames)) ∧
  (∃ v, (3, v) ∈ total_career_races (results_df namesake_frames)) ∧
  (∃ v, (3, v) ∈ total_driver_points
                   (results_df (@assign_points decimal_parser namesake_frames))).
Proof.
  apply (@X7_no_numeric_finish_no_average decimal_parser namesake_frames 3).
  - do 3 right. by left.
  - reflexivity.
Defined.

Section name_key_lemmas.
Context `{NumericParser}.

Lemma average_positions_gained_labels (fr : frames) :
  (average_positions_gained fr).*1
  ≡ₚ Some <$> group_keys String.le (snd <$> positions_gained_df fr).
Proof.
  unfold average_positions_gained.
  rewrite sort_values_Permutation, <-list_fmap_compose.
  rewrite <-(groupby_keys String.le snd
               (λ g, mean (positionsGained ∘ fst <$> g))).
  by rewrite <-list_fmap_compose.
Qed.

Lemma elem_of_average_positions_gained_labels (fr : frames) label :
  label ∈ (average_positions_gained fr).*1 ↔
  ∃ name g, label = Some name ∧ (g, Some name) ∈ positions_gained_df fr.
Proof.
  rewrite average_positions_gained_labels, list_elem_of_fmap. split.
  - intros (name & -> & Hname).
    apply (elem_of_group_keys String.le) in Hname.
    apply list_elem_of_fmap in Hname as ([g on] & Hon & Hg).
    simpl in Hon. subst on. eauto.
  - intros (name & g & -> & Hg). exists name. split; [done|].
    apply (elem_of_group_keys String.le), list_elem_of_fmap.
    by exists (g, Some name).
Qed.
End name_key_lemmas.

(** X8: the average positions gained table is keyed by the driver name: it
    has exactly one row per distinct name among the joined rows, so the rows
    of drivers who share a name are pooled, and a joined row whose driver id
    is not in the driver table is in no row. *)
Theorem X8_positions_gained_one_row_per_name `{NumericParser} (fr : frames) :
  NoDup (average_positions_gained fr).*1 ∧
  ∀ label,
    label ∈ (average_positions_gained fr).*1 ↔
    ∃ name g, label = Some name ∧ (g, Some name) ∈ positions_gained_df fr.
Proof.
  split.
  - rewrite average_positions_gained_labels.
    apply (NoDup_fmap_2 Some), (NoDup_group_keys String.le).
  - apply elem_of_average_positions_gained_labels.
Qed.

(** X9: a qualifying row and a result row of the same race and driver whose
    positions are both whole numbers, their absolute values adding up to at
    most 2^53, give a joined row with positionsGained = qualifying - finish,
    a whole number in the same range, whether or not the driver table has
    the driver: the left join drops no row. *)
Theorem X9_numeric_pair_joined `{NumericParser} (fr : frames)
    (q : Qualifying.t) (r : Result.t) (zq zr : Z) :
  q ∈ qualifying_df fr → r ∈ results_df fr →
  Result.raceId r = Qualifying.raceId q →
  Result.driverId r = Qualifying.driverId q →
  to_numeric (Qualifying.position q) = Some (Qc_of_Z zq) →
  to_numeric (Result.positionOrder r) = Some (Qc_of_Z zr) →
  Z.abs zq + Z.abs zr ≤ 2 ^ 53 →
  Z.abs (zq - zr) ≤ 2 ^ 53 ∧
  ∃ label,
    (GainedRow (Qualifying.raceId q) (Qualifying.driverId q)
       (Qc_of_Z zq) (Qc_of_Z zr) (Qc_of_Z (zq - zr)), label)
    ∈ positions_gained_df fr.
Proof.
  intros Hq Hr Hrace Hdriver Hqp Hrp Hrange. split; [lia|].
  set (g := GainedRow (Qualifying.raceId q) (Qualifying.driverId q)
              (Qc_of_Z zq) (Qc_of_Z zr) (Qc_of_Z (zq - zr))).
  assert (g ∈ omap dropna_gained
                (merged_positions (qualifying_df fr) (results_df fr))) as Hg.
  { apply list_elem_of_omap.
    exists (MergedRow (Qualifying.raceId q) (Qualifying.driverId q)
              (Some (Qc_of_Z zq)) (Some (Qc_of_Z zr))).
    split; [|unfold dropna_gained, g; simpl; by rewrite Z2Qc_inj_sub].
    unfold merged_positions. apply list_elem_of_fmap.
    exists ((Qualifying.raceId q, Qualifying.driverId q, Qualifying.position q),
            (Result.raceId r, Result.driverId r, Result.positionOrder r)).
    split; [simpl; by rewrite Hqp, Hrp|].
    apply elem_of_merge_inner. split_and!.
    - apply list_elem_of_fmap. by exists q.
    - apply list_elem_of_fmap. by exists r.
    - simpl. by rewrite Hrace, Hdriver. }
  destruct (merge_left_total g_driverId Driver.driverId _ (drivers_df fr) g Hg)
    as [od Hod].
  exists (driverName od). unfold positions_gained_df.
  apply list_elem_of_fmap. by exists (g, od).
Qed.

Lemma X9_numeric_pair_joined_witness :
  Z.abs (1 - 3) ≤ 2 ^ 53 ∧
  ∃ label,
    (GainedRow 10 1 (Qc_of_Z 1) (Qc_of_Z 3) (Qc_of_Z (1 - 3)), label)
    ∈ @positions_gained_df decimal_parser (single_driver_frames []).
Proof.
  apply (@X9_numeric_pair_joined decimal_parser (single_driver_frames [])
           (Qualifying.mk 10 1 (Num (Qc_of_Z 1)))
           (Result.mk 10 1 5 (Num (Qc_of_Z 3)) (Num (Qc_of_Z 15))));
    (by left) || reflexivity || by vm_compute.
Defined.

(** ** The values of the tables *)

Lemma length_remove_dups_le `{EqDecision T} (l : list T) :
  (length (remove_dups l) ≤ length l)%nat.
Proof.
  induction l as [|x l IH]; [done|]. simpl.
  case_decide; simpl; lia.
Qed.

(** X10: the total career races of a driver is a whole number between 1 and
    the number of the driver's result rows. *)
Theorem X10_career_races_bounds (results : list Result.t) (d : Z) (v : Qc) :
  (d, v) ∈ total_career_races results →
  ∃ n : nat,
    v = Qc_of_Z (Z.of_nat n) ∧
    (1 ≤ n ≤ length (rows_of_driver results d))%nat.
Proof.
  intros [Hd ->]%elem_of_total_career_races.
  exists (size (races_of_driver results d)). split; [done|].
  unfold races_of_driver. rewrite <-nunique_size. unfold nunique. split.
  - apply list_elem_of_fmap in Hd as (r & -> & Hr).
    assert (Result.raceId r
            ∈ remove_dups (Result.raceId <$>
                           rows_of_driver results (Result.driverId r))) as Hin.
    { apply elem_of_remove_dups, list_elem_of_fmap_2.
      by apply list_elem_of_filter. }
    destruct (remove_dups _); [by apply not_elem_of_nil in Hin|simpl; lia].
  - etrans; [apply length_remove_dups_le|]. by rewrite length_fmap.
Qed.

Lemma X10_career_races_bounds_witness :
  ∃ n : nat,
    Qc_of_Z 2 = Qc_of_Z (Z.of_nat n) ∧
    (1 ≤ n ≤ length (rows_of_driver (results_df repeated_race_frames) 1))%nat.
Proof.
  apply (X10_career_races_bounds (results_df repeated_race_frames) 1).
  by left.
Defined.

(** X11: when the numeric points of a driver's result rows are an exact
    column, the total career points of the driver are their sum, a whole
    number of absolute value at most 2^53, a non-numeric points value
    adding nothing; the value is reported under every label of the driver.
    The same holds for a constructor and the team points. *)
Theorem X11_points_sum_exact `{NumericParser} (fr : frames) :
  let results := results_df fr in
  (∀ d, d ∈ Result.driverId <$> results →
     exact_column (numeric_points (rows_of_driver results d)) →
     let points := total (numeric_points (rows_of_driver results d)) in
     whole_within (2 ^ 53) points ∧
     (∀ v, (d, v) ∈ total_driver_points (results_df (assign_points fr))
           ↔ v = points) ∧
     (∀ label, label ∈ driver_labels (drivers_df fr) d →
               (label, points) ∈ out_total_driver_points (aggregate fr).1)) ∧
  (∀ c, c ∈ Result.constructorId <$> results →
     exact_column (numeric_points (rows_of_team results c)) →
     let points := total (numeric_points (rows_of_team results c)) in
     whole_within (2 ^ 53) points ∧
     (∀ v, (c, v) ∈ total_team_points (results_df (assign_points fr))
           ↔ v = points) ∧
     (∀ label, label ∈ team_labels (constructors_df fr) c →
               (label, points) ∈ out_total_team_points (aggregate fr).1)).
Proof.
  intros results. subst results. split.
  - intros d Hd Hexact points. split_and!.
    + by apply exact_column_total.
    + intros v. simpl. rewrite elem_of_total_driver_points. tauto.
    + intros label Hlabel. unfold aggregate; simpl.
      apply elem_of_sort_values, elem_of_with_driver_name.
      exists d. split; [|done]. by apply elem_of_total_driver_points.
  - intros c Hc Hexact points. split_and!.
    + by apply exact_column_total.
    + intros v. simpl. rewrite elem_of_total_team_points. tauto.
    + intros label Hlabel. unfold aggregate; simpl.
      rewrite assign_points_idemp.
      apply elem_of_sort_values, elem_of_with_team_name.
      exists c. split; [|done]. by apply elem_of_total_team_points.
Qed.

Lemma X11_points_sum_exact_witness :
  (Some "Graham Hill", Qc_of_Z 8)
  ∈ out_total_driver_points (@aggregate decimal_parser namesake_frames).1 ∧
  (Some "BRM", Qc_of_Z 8)
  ∈ out_total_team_points (@aggregate decimal_parser namesake_frames).1.
Proof.
  assert (Qc_of_Z 8
          = total (@numeric_points decimal_parser
                     (rows_of_driver (results_df namesake_frames) 2)))
    as Hd by (apply Qc_is_canon; reflexivity).
  assert (Qc_of_Z 8
          = total (@numeric_points decimal_parser
                     (rows_of_team (results_df namesake_frames) 6)))
    as Hc by (apply Qc_is_canon; reflexivity).
  destruct (@X11_points_sum_exact decimal_parser namesake_frames)
    as [Hdriver Hteam].
  split.
  - rewrite Hd.
    refine (proj2 (proj2 (Hdriver 2 ltac:(right; by left) _)) _ _);
      [|by left].
    exists [3; 5]. split; [reflexivity|by vm_compute].
  - rewrite Hc.
    refine (proj2 (proj2 (Hteam 6 ltac:(right; by left) _)) _ _);
      [|by left].
    exists [3; 5]. split; [reflexivity|by vm_compute].
Defined.

(** X12: a run changes the loaded tables exactly when some points cell of
    the result table is text: with every points cell a number or missing,
    the five tables are after the run as they were loaded. *)
Theorem X12_tables_unchanged_iff_no_text_points `{NumericParser}
    (fr : frames) :
  (aggregate fr).2 = fr ↔
  ∀ r, r ∈ results_df fr → ∀ s, Result.points r ≠ Str s.
Proof.
  unfold aggregate; simpl. rewrite assign_points_idemp.
  destruct fr as [ds rs results qs cs]; unfold assign_points; simpl.
  split.
  - intros [= Hres] r Hr s Hs.
    apply (f_equal (λ l, Result.points <$> l)) in Hres.
    rewrite <-list_fmap_compose in Hres.
    apply list_elem_of_lookup in Hr as [i Hi].
    apply (f_equal (λ l, l !! i)) in Hres.
    rewrite !list_lookup_fmap, Hi in Hres. simpl in Hres.
    rewrite Hs in Hres. injection Hres as Hres.
    simpl in Hres. by destruct (parse_number s).
  - intros Hno. f_equal. rewrite <-(list_fmap_id results) at 2.
    apply list_fmap_ext. intros i r Hi.
    assert (r ∈ results) as Hr by (by eapply list_elem_of_lookup_2).
    specialize (Hno r Hr). destruct r as [a b c po pts]; simpl in *.
    unfold coerce_points; simpl. f_equal.
    destruct pts; simpl; [done| |done]. by destruct (Hno s).
Qed.

Lemma bind_nil_const {C D} (l : list C) : l ≫= (λ _, @nil D) = [].
Proof. induction l as [|c l IH]; [done|]. by rewrite bind_cons, IH. Qed.

(** X13: with an empty result table all five output tables are empty,
    whatever the other tables hold; with an empty qualifying table the
    average positions gained table is empty. *)
Theorem X13_empty_tables `{NumericParser} :
  (∀ drivers races qualifying constructors,
     (aggregate (Frames drivers races [] qualifying constructors)).1
     = Outputs [] [] [] [] []) ∧
  (∀ drivers races results constructors,
     out_average_positions_gained
       (aggregate (Frames drivers races results [] constructors)).1 = []).
Proof.
  split; [|done].
  intros drivers races qualifying constructors.
  unfold aggregate; simpl. f_equal.
  unfold average_positions_gained, positions_gained_df, merged_positions,
    merge_inner; simpl.
  by rewrite bind_nil_const.
Qed.

(** ** The points of all drivers and of all teams *)

Section partition_lemmas.
Context {A : Type}.
Implicit Types (f : A → Z) (val : A → option Qc) (l : list A) (K : list Z).

Lemma total_zero K : total ((λ _, 0%Qc) <$> K) = 0%Qc.
Proof.
  induction K as [|k K IH]; [done|].
  rewrite fmap_cons. unfold total in *; simpl. by rewrite IH, Qcplus_0_l.
Qed.

Lemma total_fmap_plus (g1 g2 : Z → Qc) K :
  total ((λ k, g1 k + g2 k)%Qc <$> K)
  = (total (g1 <$> K) + total (g2 <$> K))%Qc.
Proof.
  induction K as [|k K IH]; [done|].
  rewrite !fmap_cons. unfold total in *; simpl. rewrite IH. ring.
Qed.

Lemma total_indicator K (k0 : Z) (v : Qc) :
  NoDup K → k0 ∈ K →
  total ((λ k, if decide (k0 = k) then v else 0%Qc) <$> K) = v.
Proof.
  induction K as [|k K IH]; intros Hnd Hin; [by apply not_elem_of_nil in Hin|].
  apply NoDup_cons in Hnd as [Hk Hnd]. rewrite fmap_cons.
  unfold total in *; simpl. case_decide as Hk0.
  - subst k0.
    rewrite (list_fmap_ext _ (λ _, 0%Qc) K).
    + fold (total ((λ _, 0%Qc) <$> K)). rewrite total_zero. ring.
    + intros i k' Hk'. rewrite decide_False; [done|].
      intros ->. apply Hk. by eapply list_elem_of_lookup_2.
  - apply elem_of_cons in Hin as [->|Hin]; [done|].
    rewrite IH by done. ring.
Qed.

Lemma sum_skipna_cons (c : option Qc) (col : list (option Qc)) :
  sum_skipna (c :: col) = (sum_skipna [c] + sum_skipna col)%Qc.
Proof.
  destruct c; unfold sum_skipna; simpl;
    by rewrite ?Qcplus_0_r, ?Qcplus_0_l.
Qed.

(** The sums of the groups of a table add up to the sum of the table. *)
Lemma groups_total f val l K :
  NoDup K → (∀ a, a ∈ l → f a ∈ K) →
  total ((λ k, sum_skipna (val <$> filter (λ a, f a = k) l)) <$> K)
  = sum_skipna (val <$> l).
Proof.
  intros Hnd. induction l as [|a l IH]; intros Hin.
  { rewrite (list_fmap_ext _ (λ _, 0%Qc) K) by done. apply total_zero. }
  rewrite (list_fmap_ext _
             (λ k, (if decide (f a = k) then sum_skipna [val a] else 0)
                   + sum_skipna (val <$> filter (λ a, f a = k) l))%Qc K).
  - rewrite total_fmap_plus, total_indicator, IH.
    + rewrite fmap_cons. symmetry. apply sum_skipna_cons.
    + intros a' Ha'. apply Hin. by right.
    + done.
    + apply Hin. by left.
  - intros i k Hk. rewrite filter_cons. case_decide.
    + rewrite fmap_cons. apply sum_skipna_cons.
    + by rewrite Qcplus_0_l.
Qed.

Lemma groupby_total f val l :
  total (groupby Z.le (Some ∘ f) (λ g, sum_skipna (val <$> g)) l).*2
  = sum_skipna (val <$> l).
Proof.
  unfold groupby. rewrite <-list_fmap_compose.
  rewrite <-(groups_total f val l (group_keys Z.le (Some ∘ f <$> l))).
  - f_equal. apply list_fmap_ext. intros i k Hk; simpl. do 2 f_equal.
    apply list_filter_iff. intros a; simpl. split; [by intros [= ->]|by intros ->].
  - apply (NoDup_group_keys Z.le).
  - intros a Ha. apply (elem_of_group_keys Z.le).
    apply list_elem_of_fmap. by exists a.
Qed.
End partition_lemmas.

Lemma with_driver_name_values (t : list (Z * Qc)) (drivers : list Driver.t) :
  NoDup (Driver.driverId <$> drivers) → (with_driver_name t drivers).*2 = t.*2.
Proof.
  intros Hnd. rewrite with_driver_name_bind.
  induction t as [|dv t IH]; [done|].
  rewrite bind_cons, !fmap_app, fmap_cons, IH.
  pose proof (length_driver_labels drivers dv.1 Hnd) as Hlen.
  by destruct (driver_labels drivers dv.1) as [|x [|y ys]].
Qed.

Lemma with_team_name_values (t : list (Z * Qc))
    (constructors : list Constructor.t) :
  NoDup (Constructor.constructorId <$> constructors) →
  (with_team_name t constructors).*2 = t.*2.
Proof.
  intros Hnd. rewrite with_team_name_bind.
  induction t as [|cv t IH]; [done|].
  rewrite bind_cons, !fmap_app, fmap_cons, IH.
  pose proof (length_team_labels constructors cv.1 Hnd) as Hlen.
  by destruct (team_labels constructors cv.1) as [|x [|y ys]].
Qed.

(** X14: when the numeric points of the result table are an exact column,
    every total of a driver and of a team is a whole number of absolute
    value at most 2^53, and so is the sum of all numeric points; the totals
    of the drivers add up to that sum, and so do the totals of the teams;
    with no driver id and no constructor id twice in their tables, this is
    the sum of the value column of each of the two points tables written. *)
Theorem X14_exact_points_add_up `{NumericParser} (fr : frames) :
  exact_column (numeric_points (results_df fr)) →
  let all := total (numeric_points (results_df fr)) in
  let results := results_df (assign_points fr) in
  whole_within (2 ^ 53) all ∧
  (∀ d v, (d, v) ∈ total_driver_points results → whole_within (2 ^ 53) v) ∧
  (∀ c v, (c, v) ∈ total_team_points results → whole_within (2 ^ 53) v) ∧
  total (total_driver_points results).*2 = all ∧
  total (total_team_points results).*2 = all ∧
  (NoDup (Driver.driverId <$> drivers_df fr) →
   total (out_total_driver_points (aggregate fr).1).*2 = all) ∧
  (NoDup (Constructor.constructorId <$> constructors_df fr) →
   total (out_total_team_points (aggregate fr).1).*2 = all).
Proof.
  intros Hexact all results. subst all results.
  assert (total (total_driver_points (results_df (assign_points fr))).*2
          = total (numeric_points (results_df fr))) as Hd.
  { unfold total_driver_points.
    rewrite (groupby_total Result.driverId (float_of ∘ Result.points)).
    apply sum_coerced_points. }
  assert (total (total_team_points (results_df (assign_points fr))).*2
          = total (numeric_points (results_df fr))) as Hc.
  { unfold total_team_points.
    rewrite (groupby_total Result.constructorId (float_of ∘ Result.points)).
    apply sum_coerced_points. }
  split_and!; [ | | |done..| | ].
  - by apply exact_column_total.
  - intros d v Hin. simpl in Hin.
    apply elem_of_total_driver_points in Hin as [_ ->].
    by apply exact_column_total, exact_points_of_driver.
  - intros c v Hin. simpl in Hin.
    apply elem_of_total_team_points in Hin as [_ ->].
    by apply exact_column_total, exact_points_of_team.
  - intros Hnd. unfold aggregate.
    cbn [fst out_total_driver_points]. unfold total_driver_points_df.
    rewrite (total_Permutation _ _
               (fmap_Permutation snd _ _ (sort_values_Permutation _ _))).
    by rewrite with_driver_name_values.
  - intros Hnd. unfold aggregate.
    cbn [fst out_total_team_points]. rewrite assign_points_idemp.
    unfold total_team_points_df.
    rewrite (total_Permutation _ _
               (fmap_Permutation snd _ _ (sort_values_Permutation _ _))).
    by rewrite with_team_name_values.
Qed.

Lemma X14_exact_points_add_up_witness :
  whole_within (2 ^ 53)
    (total (@numeric_points decimal_parser (results_df namesake_frames))) ∧
  total (out_total_driver_points (@aggregate decimal_parser namesake_frames).1).*2
  = total (@numeric_points decimal_parser (results_df namesake_frames)) ∧
  total (out_total_team_points (@aggregate decimal_parser namesake_frames).1).*2
  = total (@numeric_points decimal_parser (results_df namesake_frames)).
Proof.
  destruct (@X14_exact_points_add_up decimal_parser namesake_frames)
    as (Hall & _ & _ & _ & _ & Hdriver & Hteam).
  { exists [9; 3; 5]. split; [reflexivity|by vm_compute]. }
  split_and!.
  - exact Hall.
  - apply Hdriver. apply (bool_decide_unpack _). by vm_compute.
  - apply Hteam. apply (bool_decide_unpack _). by vm_compute.
Defined.

(** ** Bounds of the average finish position *)

Lemma total_bounds (lo hi : Qc) (col : list Qc) :
  Forall (λ q, lo ≤ q ∧ q ≤ hi)%Qc col →
  (Qc_of_Z (Z.of_nat (length col)) * lo ≤ total col ∧
   total col ≤ Qc_of_Z (Z.of_nat (length col)) * hi)%Qc.
Proof.
  induction 1 as [|q col [Hlo Hhi] _ [IHlo IHhi]].
  { change (Z.of_nat (length (@nil Qc))) with 0.
    rewrite Z2Qc_inj_0, !Qcmult_0_l. split; apply Qcle_refl. }
  rewrite length_cons, Nat2Z.inj_succ, <-Z.add_1_r, Z2Qc_inj_add, Z2Qc_inj_1.
  unfold total in *; simpl. split.
  - replace ((Qc_of_Z (Z.of_nat (length col)) + 1) * lo)%Qc
      with (lo + Qc_of_Z (Z.of_nat (length col)) * lo)%Qc by ring.
    by apply Qcplus_le_compat.
  - replace ((Qc_of_Z (Z.of_nat (length col)) + 1) * hi)%Qc
      with (hi + Qc_of_Z (Z.of_nat (length col)) * hi)%Qc by ring.
    by apply Qcplus_le_compat.
Qed.

Lemma mean_bounds (lo hi : Qc) (col : list Qc) :
  col ≠ [] → Forall (λ q, lo ≤ q ∧ q ≤ hi)%Qc col →
  (lo ≤ mean col ∧ mean col ≤ hi)%Qc.
Proof.
  intros Hne Hall. destruct (total_bounds lo hi col Hall) as [Hlo Hhi].
  rewrite mean_total. set (n := Qc_of_Z (Z.of_nat (length col))) in *.
  assert (0 < n)%Qc as Hn.
  { unfold n. rewrite <-Z2Qc_inj_0.
    apply (proj1 (Z2Qc_inj_lt 0 (Z.of_nat (length col)))).
    destruct col; [done|rewrite length_cons; lia]. }
  assert (n ≠ 0%Qc) as Hn0 by (intros E; rewrite E in Hn; by apply Qclt_not_eq in Hn).
  assert (0 ≤ / n)%Qc as Hinv by (by apply Qclt_le_weak, Qcinv_pos).
  split.
  - rewrite <-(Qcdiv_mult_l lo n Hn0), (Qcmult_comm lo n).
    by apply Qcmult_le_compat_r.
  - rewrite <-(Qcdiv_mult_l hi n Hn0), (Qcmult_comm hi n).
    by apply Qcmult_le_compat_r.
Qed.

(** X15: when the numeric positionOrder values of a driver are an exact
    column, their sum is a whole number of absolute value at most 2^53, and
    the average finish position lies between any two whole bounds of the
    values, themselves within 2^53; with every numeric positionOrder at
    least 1 the average is at least 1. *)
Theorem X15_average_finish_within_whole_bounds `{NumericParser}
    (results : list Result.t) (d : Z) (v : Qc) (lo hi : Z) :
  (d, v) ∈ avg_finish_position results →
  exact_column (numeric_finishes results d) →
  Z.abs lo ≤ 2 ^ 53 → Z.abs hi ≤ 2 ^ 53 →
  (∀ r q, r ∈ results → Result.driverId r = d →
          to_numeric (Result.positionOrder r) = Some q →
          (Qc_of_Z lo ≤ q ∧ q ≤ Qc_of_Z hi)%Qc) →
  whole_within (2 ^ 53) (total (numeric_finishes results d)) ∧
  (Qc_of_Z lo ≤ v ∧ v ≤ Qc_of_Z hi)%Qc.
Proof.
  intros [Hne ->]%elem_of_avg_finish_position Hexact _ _ Hall. split.
  - by apply exact_column_total.
  - apply mean_bounds; [done|].
    apply Forall_forall. intros q (r & Hr & Hd & Hq)%elem_of_numeric_finishes.
    by apply (Hall r).
Qed.

Lemma X15_average_finish_within_whole_bounds_witness :
  let finishes := @numeric_finishes decimal_parser
                    (results_df finish_codes_frames) 1 in
  whole_within (2 ^ 53) (total finishes) ∧
  (Qc_of_Z 1 ≤ mean finishes ∧ mean finishes ≤ Qc_of_Z 2)%Qc.
Proof.
  apply (@X15_average_finish_within_whole_bounds decimal_parser
           (results_df finish_codes_frames) 1).
  - apply elem_of_avg_finish_position. split; [|done].
    vm_compute. discriminate.
  - exists [1; 2]. split; [reflexivity|by vm_compute].
  - by vm_compute.
  - by vm_compute.
  - intros r q Hr Hd Hq.
    repeat (apply elem_of_cons in Hr as [->|Hr]);
      [..|by apply not_elem_of_nil in Hr];
      vm_compute in Hq; simplify_eq;
      split; apply (bool_decide_unpack _); by vm_compute.
Defined.
